(** * CanvasReelPlayer: timeline, renderer, playback and capture

    A shallow embedding of [src/components/CanvasReelPlayer.tsx].

    - JavaScript numbers are modelled as exact rationals [Q]; comparisons are
      the boolean tests of the source ([<], [>], [>=]).  Two idealisations
      follow, and the statements below stay clear of both.  [x / 0] is [0]
      in [Q] where JavaScript gives [NaN] or an infinity: what is stated of
      a quotient is stated where the divisor is positive.  [Qfloor] is taken
      of an exact product where the source floors a rounded double, which
      can be one less: what is stated of a floored size is stated at props
      where the double arithmetic is exact, or is a bound that one unit
      cannot break.
    - Strings are [string]; [text.split(' ')] and [Array.join(' ')] are
      [Str.split_space] and [Str.join_space].
    - The 2D context is a writer: [Renderer.drawFrame] returns the list of
      paint operations it issues, in order.  [ctx.measureText] is a parameter
      [measureText : font -> text -> width].
    - The component is a state machine over [Player.State].  Every function
      of the component body is a closure over the values of one render
      ([Player.Render]: the props and the [isPlaying] constant of that
      render).  [setIsPlaying] writes the React state cell
      [isPlayingState], which only the closures of a later render see.
    - A thrown exception is [Throw], a normal return is [Ok]. *)

From Stdlib Require Import QArith Qminmax Qround Lqa Lia ZArith List String Ascii Bool.
Import ListNotations.
Open Scope Q_scope.

(** ** Numbers and exceptions *)

(** [x < y] on numbers, as a boolean. *)
Definition Qltb (x y : Q) : bool := negb (Qle_bool y x).

Inductive result (A : Type) : Type :=
| Ok (a : A)
| Throw (e : string).
Arguments Ok {A} a.
Arguments Throw {A} e.

Definition bind {A B : Type} (m : result A) (k : A -> result B) : result B :=
  match m with
  | Ok a => k a
  | Throw e => Throw e
  end.

Notation "x <- m ;; k" := (bind m (fun x => k))
  (at level 61, m at next level, right associativity).

(** ** Strings *)

Module Str.

Definition space : ascii := " "%char.

(** Truthiness of a string: only the empty string is falsy. *)
Definition truthy (s : string) : bool :=
  match s with EmptyString => false | String _ _ => true end.

(** [s.split(' ')]: the empty string splits to one empty word. *)
Fixpoint split_space (s : string) : list string :=
  match s with
  | EmptyString => [EmptyString]
  | String c rest =>
      if Ascii.eqb c space then EmptyString :: split_space rest
      else match split_space rest with
           | w :: ws => String c w :: ws
           | [] => [String c EmptyString]
           end
  end.

(** [l.join(' ')]. *)
Fixpoint join_space (l : list string) : string :=
  match l with
  | [] => EmptyString
  | [w] => w
  | w :: rest => (w ++ " " ++ join_space rest)%string
  end.

Fixpoint no_space (s : string) : bool :=
  match s with
  | EmptyString => true
  | String c rest => negb (Ascii.eqb c space) && no_space rest
  end.

End Str.

(** ** Easing (lines 12-14) *)

Definition easeInOutCubic (t : Q) : Q :=
  if Qltb t (1#2) then 4 * t * t * t else 1 - (-2 * t + 2) ^ 3 / 2.

(** ** Word wrap (lines 16-32) *)

Module Wrap.
Import Str.

(** The two mutable variables of the loop. *)
Record WrapState := mkWrap { lines : list string; current : string }.

Definition init : WrapState := mkWrap [] EmptyString.

Section WithContext.
Variable measure : string -> Q.   (* ctx.measureText(_).width *)
Variable maxWidth : Q.

(** [current ? current + ' ' + w : w] *)
Definition test_line (cur w : string) : string :=
  if truthy cur then (cur ++ " " ++ w)%string else w.

(** One iteration of [for (const w of words)]. *)
Definition wrap_step (st : WrapState) (w : string) : WrapState :=
  let test := test_line (current st) w in
  let wWidth := measure test in
  if Qltb maxWidth wWidth && truthy (current st)
  then mkWrap (lines st ++ [current st]) w
  else mkWrap (lines st) test.

(** [if (current) lines.push(current); return lines] *)
Definition finish (st : WrapState) : list string :=
  if truthy (current st) then lines st ++ [current st] else lines st.

Definition wrap_words (words : list string) : list string :=
  finish (fold_left wrap_step words init).

(** Appending a further word after a space never makes a line narrower. *)
Definition measure_monotone : Prop :=
  forall s w, measure (s ++ " ") <= measure (s ++ " " ++ w).

(** *** Notions used to reason about the loop *)

(** A line fits, or is one of the words. *)
Definition fits_or_word (words : list string) (l : string) : Prop :=
  measure l <= maxWidth \/ In l words.

(** The output so far, joined with spaces. *)
Definition joined (st : WrapState) : string := join_space (finish st).

Definition extend (ls : list string) (w : string) : string :=
  match ls with
  | [] => w
  | _ => (join_space ls ++ " " ++ w)%string
  end.

(** What one iteration does to the joined output: the word is appended
    after a space, or the word is empty and leaves no trace. *)
Inductive step_kind (st : WrapState) (w : string) (st' : WrapState) : Prop :=
| Kept : truthy (current st') = true ->
         finish st' <> [] ->
         joined st' = extend (finish st) w ->
         step_kind st w st'
| Dropped : w = EmptyString ->
         current st' = EmptyString ->
         finish st' = finish st ->
         step_kind st w st'.

(** The words a second pass reads: those of the joined output. *)
Definition rewords (st : WrapState) : list string :=
  match finish st with
  | [] => []
  | ls => split_space (join_space ls)
  end.

(** How the state [st2] of a second pass over [rewords st] relates to the
    state [st] of the first: equal, or the first pass has already pushed a
    line that the second still holds as [current]. *)
Inductive replay (st st2 : WrapState) : Prop :=
| Same : st2 = st -> replay st st2
| Pending L c :
    st = mkWrap (L ++ [c]) EmptyString ->
    st2 = mkWrap L c ->
    truthy c = true ->
    maxWidth < measure (c ++ " ") ->
    measure_monotone ->
    replay st st2.

(** A line that starts with a word: it is not empty and does not begin
    with a space. *)
Definition starts_with_word (l : string) : bool :=
  match l with
  | EmptyString => false
  | String c _ => negb (Ascii.eqb c space)
  end.

Definition first_word (l : string) : string := hd EmptyString (split_space l).

(** Every break between two consecutive lines was forced: the first word of
    the later line did not fit behind the earlier line. *)
Fixpoint breaks_forced (ls : list string) : Prop :=
  match ls with
  | a :: (b :: _) as rest =>
      maxWidth < measure (a ++ " " ++ first_word b) /\ breaks_forced rest
  | _ => True
  end.

End WithContext.

Definition wrapText (measure : string -> Q) (text : string) (maxWidth : Q) : list string :=
  wrap_words measure maxWidth (split_space text).

End Wrap.

(** ** Timeline (lines 44, 62-72) *)

Module Timeline.

Record Beat := mkBeat { text : string; durationMs : Q }.

(** Modelled from the spec: the type [ReelPlan] is declared in [@/lib/agent],
    which is not among the sources; the fields are those of the spec's data
    model.  [title], [cta] and [hashtags] are optional because the renderer
    guards each of them ([||], [?.]). *)
Record ReelPlan := mkPlan {
  title : option string;
  hook : string;
  cta : option string;
  hashtags : option (list string);
  beats : list Beat;
  captions : list string
}.

Definition beats_of (plan : option ReelPlan) : list Beat :=
  match plan with Some p => beats p | None => [] end.

(** [plan?.beats.reduce((a, b) => a + b.durationMs, 0) ?? 0] *)
Definition totalDuration (plan : option ReelPlan) : Q :=
  match plan with
  | Some p => fold_left (fun a b => a + durationMs b) (beats p) 0
  | None => 0
  end.

(** The three variables of the scan: [t], [beatIndex], [beatStart]. *)
Record Scan := mkScan { t : Q; beatIndex : nat; beatStart : Q }.

(** The [for] loop of lines 66-70; [remaining] is [beats.length - i], so the
    loop condition [i < beats.length] is [remaining > 0].  Reading
    [plan!.beats[i].durationMs] of a missing element throws. *)
Fixpoint scan_loop (remaining : nat) (plan : option ReelPlan) (i : nat) (s : Scan)
  : result Scan :=
  match remaining with
  | O => Ok s
  | S remaining' =>
      match nth_error (beats_of plan) i with
      | None => Throw "TypeError: cannot read properties of undefined (reading 'durationMs')"
      | Some b =>
          let d := durationMs b in
          if Qltb (t s) d
          then Ok (mkScan (t s) i (beatStart s))
          else scan_loop remaining' plan (S i)
                         (mkScan (t s - d) (beatIndex s) (beatStart s + d))
      end
  end.

Record Resolved := mkResolved {
  scan : Scan;
  beat : option Beat;
  progress : Q
}.

(** Lines 62-72: the scan, then [beat] and [progress].  The quotient
    [t / beat.durationMs] is the source's when the resolved beat has a
    positive duration; for a duration of 0 the source gives [NaN] or an
    infinity, which [Q] does not have. *)
Definition resolve_beat (plan : option ReelPlan) (elapsed : Q) : result Resolved :=
  s <- scan_loop (List.length (beats_of plan)) plan 0 (mkScan elapsed 0 0) ;;
  let beat := nth_error (beats_of plan) (beatIndex s) in
  let progress :=
    match beat with
    | Some b => Qmin 1 (Qmax 0 (t s / durationMs b))
    | None => 0
    end in
  Ok (mkResolved s beat progress).

(** The same scan as a recursion over the beats not yet visited. *)
Fixpoint scan_list (bs : list Beat) (i : nat) (s : Scan) : Scan :=
  match bs with
  | [] => s
  | b :: rest =>
      let d := durationMs b in
      if Qltb (t s) d
      then mkScan (t s) i (beatStart s)
      else scan_list rest (S i) (mkScan (t s - d) (beatIndex s) (beatStart s + d))
  end.

Fixpoint sum_durations (bs : list Beat) : Q :=
  match bs with
  | [] => 0
  | b :: rest => durationMs b + sum_durations rest
  end.

(** The words of the timeline contract: where beat [k] starts and ends, and
    which beat covers an instant. *)
Definition cumStart (bs : list Beat) (k : nat) : Q := sum_durations (firstn k bs).
Definition cumEnd (bs : list Beat) (k : nat) : Q := cumStart bs (S k).
Definition covers (bs : list Beat) (elapsed : Q) (k : nat) : Prop :=
  cumStart bs k <= elapsed /\ elapsed < cumEnd bs k.

Definition clamp (x lo hi : Q) : Q :=
  if Qltb x lo then lo else if Qltb hi x then hi else x.

End Timeline.

(** ** Frame renderer (lines 46-124) *)

Module Renderer.
Import Str Timeline.

(** A style length [n + 'px']. *)
Inductive CssLength := Px (n : Q).

(** The canvas element: its bitmap size, its style size, and whether
    [getContext('2d')] yields a context. *)
Record Canvas := mkCanvas {
  c_width : Z;
  c_height : Z;
  c_style_width : CssLength;
  c_style_height : CssLength;
  has_context : bool
}.

Inductive FillStyle :=
| Color (css : string)
| LinearGradient (x0 y0 x1 y1 : Q) (stops : list (Q * string)).

(** What the renderer asks of the 2D context. *)
Inductive DrawOp :=
| ClearRect (x y w h : Q)
| SetFillStyle (s : FillStyle)
| FillRect (x y w h : Q)
| SetFont (f : string)
| SetTextBaseline (b : string)
| SetGlobalAlpha (a : Q)
| FillText (s : string) (x y : Q).

(** [o || d] on an optional string: absent and empty both give [d]. *)
Definition or_default (o : option string) (d : string) : string :=
  match o with
  | Some s => if truthy s then s else d
  | None => d
  end.

Definition plan_title (plan : option ReelPlan) : option string :=
  match plan with Some p => title p | None => None end.

Definition plan_cta (plan : option ReelPlan) : option string :=
  match plan with Some p => cta p | None => None end.

Definition plan_hashtags (plan : option ReelPlan) : option (list string) :=
  match plan with Some p => hashtags p | None => None end.

(** [plan?.hashtags?.slice(0, 3).join(' ') ?? ''] *)
Definition plan_tags (plan : option ReelPlan) : string :=
  match plan with
  | Some p => match hashtags p with
              | Some hs => join_space (firstn 3 hs)
              | None => EmptyString
              end
  | None => EmptyString
  end.

Definition font_title : string := "bold 56px Inter, ui-sans-serif".
Definition font_beat : string := "900 84px Inter, ui-sans-serif".
Definition font_cta : string := "600 48px Inter, ui-sans-serif".
Definition font_tags : string := "500 36px Inter, ui-sans-serif".

Section WithMeasure.
Variable measureText : string -> string -> Q.

(** The loop of lines 102-109, from line index [i]. *)
Fixpoint draw_lines (lines : list string) (i : nat) (baseY progress : Q) : list DrawOp :=
  match lines with
  | [] => []
  | line :: rest =>
      let lineH := 88 in
      let eased := easeInOutCubic (Qmin 1 (progress * (6#5))) in
      let y := baseY + inject_Z (Z.of_nat i) * lineH + (1 - eased) * 40 in
      [SetGlobalAlpha ((1#5) + (4#5) * eased); FillText line 64 y; SetGlobalAlpha 1]
      ++ draw_lines rest (S i) baseY progress
  end.

(** Lines 92-110. *)
Definition draw_beat (c : Canvas) (b : Beat) (progress : Q) : list DrawOp :=
  let display := text b in
  let maxWidth := inject_Z (c_width c) - 128 in
  let lines := Wrap.wrapText (measureText font_beat) display maxWidth in
  let lineH := 88 in
  let totalH := inject_Z (Z.of_nat (List.length lines)) * lineH in
  let baseY := inject_Z (c_height c) / 2 - totalH / 2 in
  [SetFont font_beat; SetFillStyle (Color "white"); SetTextBaseline "top"]
  ++ draw_lines lines 0 baseY progress.

Definition drawFrame (plan : option ReelPlan) (totalDuration : Q)
    (canvas : option Canvas) (elapsed : Q) : result (option (list DrawOp)) :=
  match canvas with
  | None => Ok None
  | Some c =>
    if negb (has_context c) then Ok None else
    let W := inject_Z (c_width c) in
    let H := inject_Z (c_height c) in
    r <- resolve_beat plan elapsed ;;
    let title := or_default (plan_title plan) "Reel" in
    let p := if Qltb 0 totalDuration then elapsed / totalDuration else 0 in
    let cta := or_default (plan_cta plan) EmptyString in
    let metrics := measureText font_cta cta in
    let tags := plan_tags plan in
    Ok (Some (
      [ ClearRect 0 0 W H;
        SetFillStyle (LinearGradient 0 0 W H [(0, "#0ea5e9"%string); (1, "#111827"%string)]);
        FillRect 0 0 W H;
        SetFillStyle (Color "rgba(0,0,0,0.15)");
        FillRect 0 0 W H;
        SetFillStyle (Color "rgba(255,255,255,0.85)");
        SetFont font_title;
        FillText title 64 120;
        SetFillStyle (Color "rgba(255,255,255,0.2)");
        FillRect 64 140 (W - 128) 8;
        SetFillStyle (Color "#22c55e");
        FillRect 64 140 ((W - 128) * Qmax 0 (Qmin 1 p)) 8 ]
      ++ match beat r with
         | Some b => draw_beat c b (progress r)
         | None => []
         end
      ++ [ SetFont font_cta;
           SetFillStyle (Color "#d1fae5");
           FillText cta ((W - metrics) / 2) (H - 160);
           SetFont font_tags;
           SetFillStyle (Color "rgba(255,255,255,0.9)");
           FillText tags 64 (H - 100) ]))
  end.

End WithMeasure.

(** The text painted by the header [fillText] (the eighth operation). *)
Definition header_text (ops : list DrawOp) : option string :=
  match nth_error ops 7 with
  | Some (FillText s _ _) => Some s
  | _ => None
  end.

(** The texts painted by the two footer [fillText]s: the CTA and the
    hashtag strip. *)
Definition footer_texts (ops : list DrawOp) : option (string * string) :=
  match rev ops with
  | FillText tags _ _ :: _ :: _ :: FillText cta _ _ :: _ => Some (cta, tags)
  | _ => None
  end.

(** The width of the filled part of the progress bar (the twelfth
    operation). *)
Definition bar_width (ops : list DrawOp) : option Q :=
  match nth_error ops 11 with
  | Some (FillRect _ _ w _) => Some w
  | _ => None
  end.

(** The opacities set while a frame is painted, in order. *)
Definition alphas (ops : list DrawOp) : list Q :=
  flat_map (fun op => match op with SetGlobalAlpha a => [a] | _ => [] end) ops.

(** The texts painted in a frame, in order. *)
Definition texts (ops : list DrawOp) : list string :=
  flat_map (fun op => match op with FillText s _ _ => [s] | _ => [] end) ops.

End Renderer.

(** ** The component: playback and capture controllers (lines 37-218) *)

Module Player.
Import Timeline Renderer.

Definition FULL_W : Z := 1080.
Definition FULL_H : Z := 1920.

Record Props := mkProps { plan : option ReelPlan; width : Q; height : Q }.

(** What the closures of one render see: the props and the [isPlaying]
    constant bound by [useState] in that render. *)
Record Render := mkRender { props : Props; isPlaying : bool }.

Definition totalDuration (r : Render) : Q := Timeline.totalDuration (plan (props r)).

(** A function handed to [requestAnimationFrame], with the render it
    closes over. *)
Inductive Callback := Tick (r : Render) | Loop (r : Render).

(** The recorder: not recording, recording, or stopped with its stop event
    still to be delivered. *)
Inductive RecorderState := Inactive | Recording | Stopping.

Definition Chunk := string.

Record Blob := mkBlob { parts : list Chunk; mime : string }.

(** The locals of one [recordFullPlayback] call.  [outcome] is what the
    promise it returned has resolved with; [None] while it is pending. *)
Record Capture := mkCapture {
  cap_render : Render;
  prevW : Z;
  prevH : Z;
  prevStyle : CssLength * CssLength;
  chunks : list Chunk;
  recorder : RecorderState;
  outcome : option Blob
}.

(** The mutable cells of the component: the canvas behind [canvasRef], the
    React state cell of [isPlaying], the two refs, the browser's queue of
    animation-frame callbacks, the frames painted so far (newest first) and
    the capture in flight. *)
Record State := mkState {
  canvas : option Canvas;
  isPlayingState : bool;
  startTimeRef : Q;
  rafRef : option nat;
  rafQueue : list (nat * Callback);
  nextRafId : nat;
  painted : list (list DrawOp);
  capture : option Capture
}.

(** The render React performs in state [s]. *)
Definition render_of (p : Props) (s : State) : Render := mkRender p (isPlayingState s).

Definition set_canvas (c : option Canvas) (s : State) : State :=
  mkState c (isPlayingState s) (startTimeRef s) (rafRef s) (rafQueue s) (nextRafId s)
          (painted s) (capture s).

Definition setIsPlaying (b : bool) (s : State) : State :=
  mkState (canvas s) b (startTimeRef s) (rafRef s) (rafQueue s) (nextRafId s)
          (painted s) (capture s).

Definition set_startTime (x : Q) (s : State) : State :=
  mkState (canvas s) (isPlayingState s) x (rafRef s) (rafQueue s) (nextRafId s)
          (painted s) (capture s).

Definition set_rafRef (r : option nat) (s : State) : State :=
  mkState (canvas s) (isPlayingState s) (startTimeRef s) r (rafQueue s) (nextRafId s)
          (painted s) (capture s).

Definition set_rafQueue (q : list (nat * Callback)) (s : State) : State :=
  mkState (canvas s) (isPlayingState s) (startTimeRef s) (rafRef s) q (nextRafId s)
          (painted s) (capture s).

Definition set_capture (c : option Capture) (s : State) : State :=
  mkState (canvas s) (isPlayingState s) (startTimeRef s) (rafRef s) (rafQueue s) (nextRafId s)
          (painted s) c.

Definition push_painted (ops : list DrawOp) (s : State) : State :=
  mkState (canvas s) (isPlayingState s) (startTimeRef s) (rafRef s) (rafQueue s) (nextRafId s)
          (ops :: painted s) (capture s).

Definition requestAnimationFrame (cb : Callback) (s : State) : nat * State :=
  let id := nextRafId s in
  (id, mkState (canvas s) (isPlayingState s) (startTimeRef s) (rafRef s)
               (rafQueue s ++ [(id, cb)]) (S id) (painted s) (capture s)).

Definition cancelAnimationFrame (id : nat) (s : State) : State :=
  set_rafQueue (filter (fun e => negb (Nat.eqb (fst e) id)) (rafQueue s)) s.

Definition geometry (c : Canvas) : Z * Z * CssLength * CssLength :=
  (c_width c, c_height c, c_style_width c, c_style_height c).

Definition resize (w h : Z) (sw sh : CssLength) (c : Canvas) : Canvas :=
  mkCanvas w h sw sh (has_context c).

Section WithMeasure.
Variable measureText : string -> string -> Q.

(** [drawFrame] of render [r]: paints when the canvas and its context
    exist, returns silently otherwise. *)
Definition drawFrame (r : Render) (elapsed : Q) (s : State) : result State :=
  o <- Renderer.drawFrame measureText (plan (props r)) (totalDuration r) (canvas s) elapsed ;;
  match o with
  | Some ops => Ok (push_painted ops s)
  | None => Ok s
  end.

(** Lines 126-137.  [isPlaying] is the constant of the render [r] whose
    [tick] this is; [startTimeRef.current] is read from the ref. *)
Definition tick (r : Render) (now : Q) (s : State) : result State :=
  if negb (isPlaying r) || Qeq_bool (startTimeRef s) 0 then Ok s else
  let elapsed := now - startTimeRef s in
  if Qle_bool (totalDuration r) elapsed then
    s1 <- drawFrame r (totalDuration r) s ;;
    Ok (set_startTime 0 (setIsPlaying false s1))
  else
    s1 <- drawFrame r elapsed s ;;
    let (id, s2) := requestAnimationFrame (Tick r) s1 in
    Ok (set_rafRef (Some id) s2).

(** Lines 139-144; [now] is [performance.now()]. *)
Definition play (r : Render) (now : Q) (s : State) : State :=
  match plan (props r) with
  | None => s
  | Some _ =>
      if isPlaying r then s else
      let s1 := setIsPlaying true s in
      let s2 := set_startTime now s1 in
      let (id, s3) := requestAnimationFrame (Tick r) s2 in
      set_rafRef (Some id) s3
  end.

(** Lines 146-151. *)
Definition stop (r : Render) (s : State) : result State :=
  let s1 := setIsPlaying false s in
  let s2 := set_startTime 0 s1 in
  let s3 := match rafRef s2 with
            | Some id => if Nat.eqb id 0 then s2 else cancelAnimationFrame id s2
            | None => s2
            end in
  drawFrame r 0 s3.

(** Lines 153-189: [recordFullPlayback] up to [await done]. *)
Definition recordFullPlayback (r : Render) (now : Q) (s : State) : result State :=
  match plan (props r) with
  | None => Throw "No plan"
  | Some _ =>
    match canvas s with
    | None => Throw "TypeError: cannot read properties of null (reading 'width')"
    | Some c =>
        let prevW := c_width c in
        let prevH := c_height c in
        let prevStyle := (c_style_width c, c_style_height c) in
        let s1 := set_canvas (Some (resize FULL_W FULL_H (Px (inject_Z FULL_W))
                                           (Px (inject_Z FULL_H)) c)) s in
        let cap := mkCapture r prevW prevH prevStyle [] Recording None in
        let s2 := set_capture (Some cap) s1 in
        let s3 := setIsPlaying true s2 in
        let s4 := set_startTime now s3 in
        let (_, s5) := requestAnimationFrame (Loop r) s4 in
        Ok s5
    end
  end.

(** [recorder.stop()]: the stop event is now due. *)
Definition recorder_stop (s : State) : State :=
  match capture s with
  | Some cap =>
      match recorder cap with
      | Recording =>
          set_capture (Some (mkCapture (cap_render cap) (prevW cap) (prevH cap) (prevStyle cap)
                                       (chunks cap) Stopping (outcome cap))) s
      | _ => s
      end
  | None => s
  end.

(** Lines 177-188.  [loop] is created inside [recordFullPlayback] of render
    [r]: the [isPlaying] it tests is the constant of that render, which the
    [setIsPlaying(true)] of line 175 does not change.  [recorder] is the one
    capture in flight (captures do not overlap: the page disables the export
    button while one runs). *)
Definition loop (r : Render) (now : Q) (s : State) : result State :=
  if negb (isPlaying r) then Ok s else
  let elapsed := now - startTimeRef s in
  if Qle_bool (totalDuration r) elapsed then
    s1 <- drawFrame r (totalDuration r) s ;;
    Ok (recorder_stop (setIsPlaying false s1))
  else
    s1 <- drawFrame r elapsed s ;;
    let (_, s2) := requestAnimationFrame (Loop r) s1 in
    Ok s2.

(** Line 168. *)
Definition ondataavailable (data : Chunk) (s : State) : State :=
  match capture s with
  | Some cap =>
      match recorder cap with
      | Inactive => s
      | _ =>
        if Nat.ltb 0 (String.length data)
        then set_capture (Some (mkCapture (cap_render cap) (prevW cap) (prevH cap) (prevStyle cap)
                                          (chunks cap ++ [data]) (recorder cap) (outcome cap))) s
        else s
      end
  | None => s
  end.

(** Lines 194-197.  The floor is that of the exact product; the source
    floors the rounded double product, which agrees at the page's props
    (360 by 640) and can be one less elsewhere. *)
Definition restored (r : Render) (c : Canvas) : Canvas :=
  let width := width (props r) in
  let height := height (props r) in
  resize (Qfloor (inject_Z FULL_W * (width / inject_Z FULL_W)))
         (Qfloor (inject_Z FULL_H * (height / inject_Z FULL_H)))
         (Px width) (Px height) c.

(** The recorder's stop event, delivered once [recorder.stop()] was called:
    line 170 resolves [done], and the rest of [recordFullPlayback] (lines
    191-200) runs.  Lines 194-197 write to the canvas element held by the
    local [canvas] of line 156, which is never null: when the ref no longer
    holds the element the writes reach an element that is outside the state,
    and [drawFrame] returns at line 48. *)
Definition onstop (s : State) : result State :=
  match capture s with
  | Some cap =>
      match recorder cap with
      | Stopping =>
          let r := cap_render cap in
          let blob := mkBlob (chunks cap) "video/webm" in
          let s1 := match canvas s with
                    | Some c => set_canvas (Some (restored r c)) s
                    | None => s
                    end in
          s2 <- drawFrame r 0 s1 ;;
          Ok (set_capture (Some (mkCapture r (prevW cap) (prevH cap) (prevStyle cap)
                                           (chunks cap) Inactive (Some blob))) s2)
      | _ => Ok s
      end
  | None => Ok s
  end.

(** The effect of lines 205-216, run on mount and when the props change.
    The floors are those of the exact products (see [restored]). *)
Definition layout_effect (r : Render) (s : State) : result State :=
  match canvas s with
  | None => Ok s
  | Some c =>
      let width := width (props r) in
      let height := height (props r) in
      let scale := Qmin (inject_Z FULL_W / width) (inject_Z FULL_H / height) in
      drawFrame r 0 (set_canvas (Some (resize (Qfloor (width * scale)) (Qfloor (height * scale))
                                              (Px width) (Px height) c)) s)
  end.

Definition run_callback (cb : Callback) (now : Q) (s : State) : result State :=
  match cb with
  | Tick r => tick r now s
  | Loop r => loop r now s
  end.

(** One animation frame at time [now]: the callbacks requested so far run
    in order; what they request waits for the next frame. *)
Definition animation_frame (now : Q) (s : State) : result State :=
  fold_left (fun acc e => s' <- acc ;; run_callback (snd e) now s')
            (rafQueue s) (Ok (set_rafQueue [] s)).

(** What can happen to the component: a call through the handle (with the
    render the handle was created in), an animation frame, and the
    recorder's events. *)
Inductive Event :=
| CallPlay (r : Render) (now : Q)
| CallStop (r : Render)
| CallRecord (r : Render) (now : Q)
| Frame (now : Q)
| DataAvailable (data : Chunk)
| RecorderStopped.

Definition step (e : Event) (s : State) : result State :=
  match e with
  | CallPlay r now => Ok (play r now s)
  | CallStop r => stop r s
  | CallRecord r now => recordFullPlayback r now s
  | Frame now => animation_frame now s
  | DataAvailable d => Ok (ondataavailable d s)
  | RecorderStopped => onstop s
  end.

Fixpoint run (es : list Event) (s : State) : result State :=
  match es with
  | [] => Ok s
  | e :: rest => s' <- step e s ;; run rest s'
  end.

End WithMeasure.

(** *** Notions used to reason about a capture *)

(** A queued callback that cannot stop the recorder: a preview tick, or a
    capture loop whose render has [isPlaying = false]. *)
Definition harmless (cb : Callback) : Prop :=
  match cb with
  | Tick _ => True
  | Loop r => isPlaying r = false
  end.

(** A capture that can no longer finish: the canvas is [cF], the recorder
    is recording, the promise is pending, and nothing queued can stop the
    recorder. *)
Definition hung (cF : Canvas) (s : State) : Prop :=
  canvas s = Some cF /\
  (exists cap, capture s = Some cap /\ recorder cap = Recording /\ outcome cap = None) /\
  Forall (fun e => harmless (snd e)) (rafQueue s).

(** A capture under way: the canvas is [cF], the locals of the call are
    [cap], the clock started at [now0], and the capture loop of render [r]
    is the one callback queued. *)
Definition recording (r : Render) (cF : Canvas) (cap : Capture) (now0 : Q) (s : State)
  : Prop :=
  canvas s = Some cF /\
  capture s = Some cap /\
  startTimeRef s = now0 /\
  isPlayingState s = true /\
  exists id, rafQueue s = [(id, Loop r)].

(** Every event but a new call of [recordFullPlayback]. *)
Definition no_new_capture (e : Event) : bool :=
  match e with
  | CallRecord _ _ => false
  | _ => true
  end.

(** The cleanup of the effect of line 218, run when the component
    unmounts. *)
Definition cleanup (s : State) : State :=
  match rafRef s with
  | Some id => if Nat.eqb id 0 then s else cancelAnimationFrame id s
  | None => s
  end.

(** A queued preview tick whose render has [isPlaying = false]. *)
Definition idle_tick (cb : Callback) : Prop :=
  match cb with
  | Tick r => isPlaying r = false
  | Loop _ => False
  end.

(** Calls of [play] and animation frames. *)
Definition preview_event (e : Event) : bool :=
  match e with
  | CallPlay _ _ | Frame _ => true
  | _ => false
  end.

(** What may happen while the loop of a capture of render [r], started at
    [now0], is running: frames before the end of the timeline, and chunks of
    data from the recorder. *)
Definition during (r : Render) (now0 : Q) (e : Event) : Prop :=
  match e with
  | Frame m => m - now0 < totalDuration r
  | DataAvailable _ => True
  | _ => False
  end.

Definition is_data (e : Event) : bool :=
  match e with
  | DataAvailable _ => true
  | _ => false
  end.

(** The chunks a list of events delivers, and those line 168 keeps. *)
Definition data_of (es : list Event) : list Chunk :=
  flat_map (fun e => match e with DataAvailable d => [d] | _ => [] end) es.

Definition kept_chunks (ds : list Chunk) : list Chunk :=
  filter (fun d => Nat.ltb 0 (String.length d)) ds.

End Player.

(** ** Concrete inputs *)

Module Examples.
Import Timeline Renderer Player.

Definition beatA : Beat := mkBeat "A" 1000.
Definition beatB : Beat := mkBeat "B" 2000.

(** The two-beat plan of the spec's scenario B. *)
Definition planAB : ReelPlan :=
  mkPlan (Some "Demo"%string) "hook" (Some "Follow"%string)
         (Some ["#a"; "#b"]%string) [beatA; beatB] [].

(** A measure of 40 units per character. *)
Definition char_measure (s : string) : Q := 40 * inject_Z (Z.of_nat (String.length s)).

(** A measure that finds only the line [a ] (with its trailing space) wide. *)
Definition odd_measure (s : string) : Q := if String.eqb s "a " then 10 else 0.

Definition measureText_demo (font s : string) : Q := char_measure s.

(** The props the page passes: the plan and a 360 x 640 preview. *)
Definition preview_props : Props := mkProps (Some planAB) 360 640.

(** A fresh canvas element (300 x 150) styled by React with the props. *)
Definition default_canvas : Canvas := mkCanvas 300 150 (Px 360) (Px 640) true.

Definition initial : State := mkState (Some default_canvas) false 0 None [] 1 [] None.

(** The component after mounting: the layout effect has run. *)
Definition mounted : State :=
  match layout_effect measureText_demo (render_of preview_props initial) initial with
  | Ok s => s
  | Throw _ => initial
  end.

(** The render of the mounted component: [isPlaying] is [false]. *)
Definition idle_render : Render := render_of preview_props mounted.

(** The component after Play was pressed and one animation frame passed. *)
Definition after_play : State :=
  match run measureText_demo [CallPlay idle_render 10; Frame 26] mounted with
  | Ok s => s
  | Throw _ => mounted
  end.

(** The render that follows: [isPlaying] is [true]. *)
Definition playing_render : Render := render_of preview_props after_play.

End Examples.

(** * Facts *)

(** ** Comparisons *)

Lemma Qltb_lt x y : Qltb x y = true <-> x < y.
Proof.
  unfold Qltb. rewrite negb_true_iff. split; intro H.
  - apply Qnot_le_lt. intro C. apply Qle_bool_iff in C. congruence.
  - destruct (Qle_bool y x) eqn:E; auto.
    apply Qle_bool_iff in E. exfalso. apply (Qlt_not_le _ _ H E).
Qed.

Lemma Qltb_ge x y : Qltb x y = false <-> y <= x.
Proof.
  unfold Qltb. rewrite negb_false_iff. apply Qle_bool_iff.
Qed.

(** ** Strings: splitting and joining *)

Module StrFacts.
Import Str.

Lemma append_assoc (a b c : string) : ((a ++ b) ++ c = a ++ (b ++ c))%string.
Proof. induction a as [|x a IH]; simpl; [reflexivity|now rewrite IH]. Qed.

Lemma append_nil_r (a : string) : (a ++ "")%string = a.
Proof. induction a as [|x a IH]; simpl; [reflexivity|now rewrite IH]. Qed.

Lemma truthy_true s : truthy s = true <-> s <> EmptyString.
Proof. destruct s; simpl; split; congruence. Qed.

Lemma truthy_false s : truthy s = false <-> s = EmptyString.
Proof. destruct s; simpl; split; congruence. Qed.

Lemma split_space_not_nil s : split_space s <> [].
Proof.
  induction s as [|c s IH]; simpl; [discriminate|].
  destruct (Ascii.eqb c space); [discriminate|].
  destruct (split_space s); discriminate.
Qed.

Lemma split_space_app s t :
  split_space (s ++ String space t)%string = split_space s ++ split_space t.
Proof.
  induction s as [|c s IH]; simpl.
  - reflexivity.
  - destruct (Ascii.eqb c space).
    + now rewrite IH.
    + rewrite IH. destruct (split_space s) eqn:E; simpl; [|reflexivity].
      now destruct (split_space_not_nil s).
Qed.

Lemma split_space_word w : no_space w = true -> split_space w = [w].
Proof.
  induction w as [|c w IH]; simpl; [reflexivity|].
  intro H. apply andb_true_iff in H as [Hc Hw].
  apply negb_true_iff in Hc. rewrite Hc, (IH Hw). reflexivity.
Qed.

Lemma split_space_no_space s : Forall (fun w => no_space w = true) (split_space s).
Proof.
  induction s as [|c s IH]; simpl.
  - repeat constructor.
  - destruct (Ascii.eqb c space) eqn:E.
    + constructor; [reflexivity|assumption].
    + destruct (split_space s) as [|w ws]; inversion IH; subst; constructor; simpl; auto.
      * now rewrite E.
      * rewrite E. simpl. assumption.
Qed.

Lemma join_space_snoc l w :
  l <> [] -> join_space (l ++ [w]) = (join_space l ++ " " ++ w)%string.
Proof.
  induction l as [|a l IH]; [congruence|]. intros _.
  destruct l as [|b l].
  - reflexivity.
  - change (join_space ((a :: b :: l) ++ [w]))
      with (a ++ " " ++ join_space ((b :: l) ++ [w]))%string.
    rewrite IH by discriminate.
    change (join_space (a :: b :: l)) with (a ++ " " ++ join_space (b :: l))%string.
    rewrite !append_assoc. reflexivity.
Qed.

Lemma join_split s : join_space (split_space s) = s.
Proof.
  induction s as [|c s IH]; simpl; [reflexivity|].
  destruct (Ascii.eqb c space) eqn:E.
  - apply Ascii.eqb_eq in E. subst c.
    destruct (split_space s) eqn:Es; [now destruct (split_space_not_nil s)|].
    simpl in *. now rewrite IH.
  - destruct (split_space s) as [|w ws] eqn:Es; [now destruct (split_space_not_nil s)|].
    destruct ws; simpl in *; now rewrite <- IH.
Qed.

Lemma split_join_flat ls :
  ls <> [] -> split_space (join_space ls) = flat_map split_space ls.
Proof.
  induction ls as [|a ls IH]; [congruence|]. intros _.
  destruct ls as [|b ls].
  - simpl. now rewrite app_nil_r.
  - change (join_space (a :: b :: ls)) with (a ++ String space (join_space (b :: ls)))%string.
    rewrite split_space_app, IH by discriminate. reflexivity.
Qed.

Lemma length_append (a b : string) :
  String.length (a ++ b) = (String.length a + String.length b)%nat.
Proof. induction a as [|x a IH]; simpl; [reflexivity|now rewrite IH]. Qed.

End StrFacts.

(** ** Easing *)

Lemma Qpow3 x : x ^ 3 == x * x * x.
Proof. simpl. ring. Qed.

Lemma cube_mono x y : x <= y -> x * x * x <= y * y * y.
Proof.
  intro H.
  assert (Hs : 0 <= (y - x) * ((x + y * (1#2)) * (x + y * (1#2)) + (3#4) * (y * y))).
  { apply Qmult_le_0_compat; [lra|]. nra. }
  lra.
Qed.

Lemma ease_mono a b : 0 <= a -> a <= b -> b <= 1 -> easeInOutCubic a <= easeInOutCubic b.
Proof.
  intros Ha Hab Hb. unfold easeInOutCubic.
  destruct (Qltb a (1#2)) eqn:Ea; destruct (Qltb b (1#2)) eqn:Eb.
  - pose proof (cube_mono a b Hab). lra.
  - apply Qltb_lt in Ea. apply Qltb_ge in Eb. rewrite Qpow3.
    pose proof (cube_mono a (1#2) ltac:(lra)).
    pose proof (cube_mono (-2 * b + 2) 1 ltac:(lra)).
    unfold Qdiv; change (/ 2) with (1#2). lra.
  - apply Qltb_lt in Eb. apply Qltb_ge in Ea. lra.
  - apply Qltb_ge in Ea, Eb. rewrite !Qpow3.
    pose proof (cube_mono (-2 * b + 2) (-2 * a + 2) ltac:(lra)).
    unfold Qdiv; change (/ 2) with (1#2). lra.
Qed.

(** ** Word wrap *)

Module WrapFacts.
Import Str StrFacts Wrap.

Section WithContext.
Variable measure : string -> Q.
Variable maxWidth : Q.

Local Abbreviation wstep := (wrap_step measure maxWidth).
Local Abbreviation wrap := (wrap_words measure maxWidth).
Local Abbreviation fits := (fits_or_word measure maxWidth).
Local Abbreviation replays := (replay measure maxWidth).
Local Abbreviation monotone := (measure_monotone measure).

(** *** No line is too wide unless it is a word *)

Lemma wrap_step_fits words st w :
  In w words ->
  Forall (fits words) (lines st) ->
  (current st = EmptyString \/ fits words (current st)) ->
  Forall (fits words) (lines (wstep st w)) /\
  (current (wstep st w) = EmptyString \/ fits words (current (wstep st w))).
Proof.
  intros Hw Hl Hc. unfold wrap_step, test_line.
  destruct (truthy (current st)) eqn:Et.
  - destruct (Qltb maxWidth (measure (current st ++ " " ++ w))) eqn:Em; simpl.
    + split.
      * apply Forall_app. split; [assumption|]. constructor; [|constructor].
        destruct Hc as [Hc|Hc]; [|assumption].
        apply truthy_true in Et. contradiction.
      * right. right. assumption.
    + split; [assumption|]. right. left. now apply Qltb_ge.
  - rewrite andb_false_r. simpl. split; [assumption|]. right. right. assumption.
Qed.

Lemma fold_wrap_fits words ws st :
  incl ws words ->
  Forall (fits words) (lines st) ->
  (current st = EmptyString \/ fits words (current st)) ->
  Forall (fits words) (finish (fold_left wstep ws st)).
Proof.
  revert st. induction ws as [|w ws IH]; intros st Hin Hl Hc; simpl.
  - unfold finish. destruct (truthy (current st)) eqn:Et; [|assumption].
    apply Forall_app. split; [assumption|]. constructor; [|constructor].
    destruct Hc as [Hc|Hc]; [|assumption]. apply truthy_true in Et. contradiction.
  - destruct (wrap_step_fits words st w) as [H1 H2]; auto.
    + apply Hin. now left.
    + apply IH; auto. intros x Hx. apply Hin. now right.
Qed.

Lemma wrap_words_fits words :
  Forall (fits words) (wrap words).
Proof.
  unfold wrap_words. apply fold_wrap_fits.
  - apply incl_refl.
  - constructor.
  - now left.
Qed.

(** *** What one iteration does to the joined output *)

Lemma extend_join ls w : extend ls w = join_space (ls ++ [w]).
Proof.
  destruct ls as [|a ls]; [reflexivity|].
  unfold extend. now rewrite join_space_snoc.
Qed.

Lemma join_space_merge ls c w :
  join_space (ls ++ [(c ++ " " ++ w)%string]) = join_space ((ls ++ [c]) ++ [w]).
Proof.
  rewrite (join_space_snoc (ls ++ [c])) by (destruct ls; discriminate).
  destruct ls as [|a ls]; [reflexivity|].
  rewrite !join_space_snoc by discriminate.
  now rewrite !append_assoc.
Qed.

Lemma wrap_step_kind st w : step_kind st w (wstep st w).
Proof.
  unfold wrap_step, test_line.
  destruct (truthy (current st)) eqn:Et.
  - destruct (Qltb maxWidth (measure (current st ++ " " ++ w))) eqn:Em;
      cbv beta iota zeta; simpl andb; cbv iota.
    + destruct w as [|b w].
      * apply Dropped; auto. unfold finish; cbn [current lines truthy]. now rewrite Et.
      * apply Kept; auto.
        -- unfold finish; cbn [current lines truthy]. now destruct (lines st).
        -- unfold joined, finish. cbn [current lines truthy]. rewrite Et.
           now rewrite extend_join.
    + assert (Hn : truthy (current st ++ " " ++ w) = true)
        by (destruct (current st); [discriminate|reflexivity]).
      apply Kept; auto.
      * unfold finish; cbn [current lines]. rewrite Hn. now destruct (lines st).
      * unfold joined, finish. cbn [current lines]. rewrite Hn, Et.
        rewrite extend_join. apply join_space_merge.
  - rewrite andb_false_r. cbv beta iota zeta. pose proof Et as Ee. apply truthy_false in Ee.
    destruct w as [|b w].
    + apply Dropped; auto. unfold finish; cbn [current lines truthy]. now rewrite Et.
    + apply Kept; auto.
      * unfold finish; cbn [current lines truthy]. now destruct (lines st).
      * unfold joined, finish. cbn [current lines truthy]. rewrite Et. now rewrite extend_join.
Qed.

(** *** Non-empty words survive wrapping *)

Lemma fold_joined_nonempty ws : forall st pre,
  Forall (fun w => w <> EmptyString) ws ->
  joined st = join_space pre ->
  (finish st = [] <-> pre = []) ->
  joined (fold_left wstep ws st) = join_space (pre ++ ws).
Proof.
  induction ws as [|w ws IH]; intros st pre Hne Hj Hnil; simpl.
  - now rewrite app_nil_r.
  - inversion Hne as [|? ? Hw Hws]; subst.
    replace (pre ++ w :: ws) with ((pre ++ [w]) ++ ws) by now rewrite <- app_assoc.
    destruct (wrap_step_kind st w) as [_ Hf Hk | Hd _ _]; [|contradiction].
    apply IH; auto.
    + rewrite Hk, <- extend_join. unfold extend.
      destruct (finish st) eqn:Ef.
      * destruct Hnil as [Hnil _]. now rewrite (Hnil eq_refl).
      * destruct pre; [destruct Hnil as [_ Hnil]; now specialize (Hnil eq_refl)|].
        fold (joined st) in Hj. unfold joined in Hj. rewrite Ef in Hj. now rewrite Hj.
    + split; intro C; [contradiction | now destruct pre].
Qed.

Lemma wrap_words_join ws :
  Forall (fun w => w <> EmptyString) ws ->
  join_space (wrap ws) = join_space ws.
Proof.
  intro H. apply (fold_joined_nonempty ws init [] H); [reflexivity|].
  split; reflexivity.
Qed.

(** *** Wrapping the rejoined lines again *)

Lemma rewords_kept st w st' :
  no_space w = true ->
  finish st' <> [] ->
  joined st' = extend (finish st) w ->
  rewords st' = rewords st ++ [w].
Proof.
  intros Hw Hf Hj. unfold rewords.
  destruct (finish st') eqn:Ef'; [contradiction|]. rewrite <- Ef'.
  fold (joined st'). rewrite Hj. unfold extend.
  destruct (finish st) eqn:Ef.
  - now apply split_space_word.
  - change (" " ++ w)%string with (String space w).
    rewrite split_space_app, (split_space_word w Hw). reflexivity.
Qed.

Lemma replay_finish st st2 : replays st st2 -> finish st2 = finish st.
Proof.
  intros [->|L c -> -> Hc _ _]; [reflexivity|].
  unfold finish; simpl. now rewrite Hc.
Qed.

Lemma wrap_step_empty_idle L : wstep (mkWrap L EmptyString) EmptyString = mkWrap L EmptyString.
Proof. unfold wrap_step, test_line; simpl. now rewrite andb_false_r. Qed.

Lemma replay_step st w :
  no_space w = true ->
  (w = EmptyString -> monotone) ->
  replays st (fold_left wstep (rewords st) init) ->
  replays (wstep st w) (fold_left wstep (rewords (wstep st w)) init).
Proof.
  intros Hw Hmono [Hsame | L c Hst Hst2 Hc Hwide Hm].
  - destruct (wrap_step_kind st w) as [_ Hf Hk | Hd Hcur Hfin].
    + apply Same. rewrite (rewords_kept st w _ Hw Hf Hk), fold_left_app. simpl.
      now rewrite Hsame.
    + assert (Hr : rewords (wstep st w) = rewords st) by (unfold rewords; now rewrite Hfin).
      rewrite Hr, Hsame. subst w. destruct st as [L c].
      revert Hcur. unfold wrap_step, test_line. cbn [current lines].
      destruct (truthy c) eqn:Ec.
      * destruct (Qltb maxWidth (measure (c ++ " " ++ ""))) eqn:Em; simpl andb; cbv iota;
          cbn [current]; intro Hcur.
        -- apply (Pending measure maxWidth _ _ L c); auto. now apply Qltb_lt in Em.
        -- destruct c; discriminate.
      * rewrite andb_false_r. intros _. apply truthy_false in Ec. subst c. now apply Same.
  - subst st.
    destruct w as [|b w].
    + rewrite wrap_step_empty_idle. rewrite Hst2. eapply Pending; eauto.
    + apply Same.
      assert (Hstep : wstep (mkWrap (L ++ [c]) EmptyString) (String b w)
                      = mkWrap (L ++ [c]) (String b w)).
      { unfold wrap_step, test_line; simpl. now rewrite andb_false_r. }
      destruct (wrap_step_kind (mkWrap (L ++ [c]) EmptyString) (String b w))
        as [_ Hf Hk | Hd _ _]; [|discriminate].
      rewrite (rewords_kept _ _ _ Hw Hf Hk), fold_left_app, Hst2. simpl fold_left.
      rewrite Hstep. unfold wrap_step, test_line. cbn [current lines]. rewrite Hc.
      assert (Hx : Qltb maxWidth (measure (c ++ " " ++ String b w)) = true).
      { apply Qltb_lt. eapply Qlt_le_trans; [exact Hwide|apply Hm]. }
      now rewrite Hx.
Qed.

Lemma replay_fold ws : forall st,
  Forall (fun w => no_space w = true) ws ->
  (In EmptyString ws -> monotone) ->
  replays st (fold_left wstep (rewords st) init) ->
  replays (fold_left wstep ws st)
         (fold_left wstep (rewords (fold_left wstep ws st)) init).
Proof.
  induction ws as [|w ws IH]; intros st Hns Hm Hr; simpl; [assumption|].
  inversion Hns; subst. apply IH; auto.
  - intro Hin. apply Hm. now right.
  - apply replay_step; auto. intros ->. apply Hm. now left.
Qed.

Lemma wrap_words_rewrap ws :
  Forall (fun w => no_space w = true) ws ->
  (In EmptyString ws -> monotone) ->
  wrap (split_space (join_space (wrap ws))) = wrap ws.
Proof.
  intros Hns Hm.
  pose proof (replay_fold ws init Hns Hm (Same measure maxWidth _ _ eq_refl)) as Hr.
  apply replay_finish in Hr. unfold wrap_words.
  set (stf := fold_left wstep ws init) in *.
  unfold rewords in Hr. destruct (finish stf) eqn:Ef.
  - cbn [join_space split_space fold_left]. unfold init.
    now rewrite wrap_step_empty_idle.
  - exact Hr.
Qed.

End WithContext.
End WrapFacts.

(** ** Timeline *)

Module TimelineFacts.
Import Timeline.

(** The indexed loop visits the beats in order and never reads past the end. *)
Lemma scan_loop_list plan rest : forall pre s,
  beats_of plan = pre ++ rest ->
  scan_loop (List.length rest) plan (List.length pre) s = Ok (scan_list rest (List.length pre) s).
Proof.
  induction rest as [|b rest IH]; intros pre s Hb; simpl; [reflexivity|].
  rewrite Hb, nth_error_app2, Nat.sub_diag by lia. simpl.
  destruct (Qltb (t s) (durationMs b)); [reflexivity|].
  specialize (IH (pre ++ [b])). rewrite length_app in IH. simpl in IH.
  rewrite Nat.add_1_r in IH. apply IH. now rewrite <- app_assoc.
Qed.

Lemma scan_loop_total plan elapsed :
  scan_loop (List.length (beats_of plan)) plan 0 (mkScan elapsed 0 0)
  = Ok (scan_list (beats_of plan) 0 (mkScan elapsed 0 0)).
Proof. exact (scan_loop_list plan (beats_of plan) [] _ eq_refl). Qed.

Lemma fold_durations bs : forall a,
  fold_left (fun a b => a + durationMs b) bs a == a + sum_durations bs.
Proof.
  induction bs as [|b bs IH]; intro a; simpl; [ring|].
  rewrite IH. ring.
Qed.

Lemma totalDuration_sum p : totalDuration (Some p) == sum_durations (beats p).
Proof. unfold totalDuration. rewrite fold_durations. ring. Qed.

Lemma min_max_clamp x : Qmin 1 (Qmax 0 x) == clamp x 0 1.
Proof.
  unfold clamp.
  destruct (Qltb x 0) eqn:E0.
  - apply Qltb_lt in E0. rewrite Q.max_l by lra. rewrite Q.min_r by lra. reflexivity.
  - apply Qltb_ge in E0. rewrite Q.max_r by lra.
    destruct (Qltb 1 x) eqn:E1.
    + apply Qltb_lt in E1. rewrite Q.min_l by lra. reflexivity.
    + apply Qltb_ge in E1. rewrite Q.min_r by lra. reflexivity.
Qed.

Lemma scan_list_past_end bs : forall i s,
  Forall (fun b => 0 <= durationMs b) bs ->
  sum_durations bs <= t s ->
  let r := scan_list bs i s in
  beatIndex r = beatIndex s /\ t r == t s - sum_durations bs /\
  beatStart r == beatStart s + sum_durations bs.
Proof.
  induction bs as [|b bs IH]; intros i s Hpos Hle; simpl in *.
  - repeat split; ring.
  - inversion Hpos as [|? ? Hb Hbs]; subst.
    assert (Hs : 0 <= sum_durations bs).
    { clear -Hbs. induction Hbs; simpl; lra. }
    destruct (Qltb (t s) (durationMs b)) eqn:E.
    + apply Qltb_lt in E. lra.
    + destruct (IH (S i) (mkScan (t s - durationMs b) (beatIndex s)
                                 (beatStart s + durationMs b)) Hbs)
        as (H1 & H2 & H3); simpl in *; [lra|].
      repeat split; [assumption| rewrite H2; ring | rewrite H3; ring].
Qed.

Lemma scan_list_within bs : forall i s,
  0 <= t s ->
  t s < sum_durations bs ->
  exists k b,
    nth_error bs k = Some b /\
    beatIndex (scan_list bs i s) = (i + k)%nat /\
    t (scan_list bs i s) == t s - cumStart bs k /\
    beatStart (scan_list bs i s) == beatStart s + cumStart bs k /\
    t s < cumEnd bs k /\
    (forall j, (j < k)%nat -> cumEnd bs j <= t s) /\
    0 <= t (scan_list bs i s) < durationMs b.
Proof.
  induction bs as [|b bs IH]; intros i s H0 Hlt; simpl in Hlt.
  - lra.
  - simpl. destruct (Qltb (t s) (durationMs b)) eqn:E.
    + apply Qltb_lt in E. exists 0%nat, b. unfold cumEnd, cumStart. simpl.
      repeat split; try ring; try lia; try lra.
    + apply Qltb_ge in E.
      destruct (IH (S i) (mkScan (t s - durationMs b) (beatIndex s) (beatStart s + durationMs b)))
        as (k & b' & Hn & Hi & Ht & Hs & He & Hf & Hd); simpl in *; [lra|lra|].
      exists (S k), b'. unfold cumEnd, cumStart in *. simpl in *.
      repeat split; auto.
      * rewrite Hi. lia.
      * rewrite Ht. ring.
      * rewrite Hs. ring.
      * lra.
      * intros [|j] Hj; simpl; [lra|].
        specialize (Hf j ltac:(lia)). lra.
      * apply Hd.
      * apply Hd.
Qed.

Lemma sum_durations_nonneg bs :
  Forall (fun b => 0 <= durationMs b) bs -> 0 <= sum_durations bs.
Proof. induction 1; simpl; lra. Qed.

End TimelineFacts.

(** ** Renderer *)

Module RendererFacts.
Import Timeline Renderer.

Lemma resolve_beat_ok plan elapsed : exists r, resolve_beat plan elapsed = Ok r.
Proof.
  unfold resolve_beat. rewrite TimelineFacts.scan_loop_total. cbn [bind].
  eexists. reflexivity.
Qed.

Lemma footer_texts_app pre cta_text x1 y1 tags_text x2 y2 f1 f2 f3 :
  footer_texts (pre ++ [f1; f2; FillText cta_text x1 y1; f3;
                        SetFillStyle (Color "rgba(255,255,255,0.9)");
                        FillText tags_text x2 y2])
  = Some (cta_text, tags_text).
Proof. unfold footer_texts. rewrite rev_app_distr. reflexivity. Qed.

(** With a canvas and a context the renderer paints a frame, whatever the
    plan and the instant; the header is the title or its default and the
    footer is the CTA and the hashtag strip. *)
Lemma drawFrame_paints measureText plan total c elapsed :
  has_context c = true ->
  exists ops,
    drawFrame measureText plan total (Some c) elapsed = Ok (Some ops) /\
    header_text ops = Some (or_default (plan_title plan) "Reel") /\
    footer_texts ops = Some (or_default (plan_cta plan) EmptyString, plan_tags plan).
Proof.
  intro Hc. unfold drawFrame. rewrite Hc. cbn [negb].
  destruct (resolve_beat_ok plan elapsed) as [r Hr]. rewrite Hr. cbn [bind].
  eexists. split; [reflexivity|]. split.
  - reflexivity.
  - rewrite app_assoc. apply footer_texts_app.
Qed.

(** Without a canvas, or without a context, it returns without painting. *)
Lemma drawFrame_skips measureText plan total canvas elapsed :
  match canvas with Some c => has_context c = false | None => True end ->
  drawFrame measureText plan total canvas elapsed = Ok None.
Proof.
  destruct canvas as [c|]; [|reflexivity]. intro Hc. unfold drawFrame. now rewrite Hc.
Qed.

End RendererFacts.

(** ** Playback and capture *)

Module PlayerFacts.
Import Timeline Renderer Player.

Section WithMeasure.
Variable measureText : string -> string -> Q.

Lemma set_rafQueue_same s : rafQueue s = [] -> set_rafQueue [] s = s.
Proof. destruct s; simpl; intros ->; reflexivity. Qed.

Lemma animation_frame_idle now s :
  rafQueue s = [] -> animation_frame measureText now s = Ok s.
Proof.
  intro H. unfold animation_frame. rewrite H. simpl. now rewrite set_rafQueue_same.
Qed.

Lemma frames_idle nows : forall s,
  rafQueue s = [] -> run measureText (map Frame nows) s = Ok s.
Proof.
  induction nows as [|now nows IH]; intros s H; simpl; [reflexivity|].
  rewrite animation_frame_idle by assumption. simpl. now apply IH.
Qed.

Lemma drawFrame_painted r elapsed s c :
  canvas s = Some c ->
  has_context c = true ->
  exists ops,
    Renderer.drawFrame measureText (plan (props r)) (totalDuration r) (Some c) elapsed
      = Ok (Some ops) /\
    drawFrame measureText r elapsed s = Ok (push_painted ops s).
Proof.
  intros Hs Hc.
  destruct (RendererFacts.drawFrame_paints measureText (plan (props r)) (totalDuration r)
              c elapsed Hc) as (ops & Hd & _).
  exists ops. split; [assumption|].
  unfold drawFrame. rewrite Hs, Hd. reflexivity.
Qed.

Lemma recordFullPlayback_starts r now0 s c pl :
  plan (props r) = Some pl ->
  canvas s = Some c ->
  recordFullPlayback r now0 s
  = Ok (mkState
          (Some (resize FULL_W FULL_H (Px (inject_Z FULL_W)) (Px (inject_Z FULL_H)) c))
          true now0 (rafRef s) (rafQueue s ++ [(nextRafId s, Loop r)]) (S (nextRafId s))
          (painted s)
          (Some (mkCapture r (c_width c) (c_height c) (c_style_width c, c_style_height c)
                           [] Recording None))).
Proof.
  intros Hp Hc. unfold recordFullPlayback. rewrite Hp, Hc. reflexivity.
Qed.

Lemma loop_aborts r now s : isPlaying r = false -> loop measureText r now s = Ok s.
Proof. intro H. unfold loop. now rewrite H. Qed.

Lemma loop_finishes r now s c :
  isPlaying r = true ->
  totalDuration r <= now - startTimeRef s ->
  canvas s = Some c ->
  has_context c = true ->
  exists ops,
    Renderer.drawFrame measureText (plan (props r)) (totalDuration r) (Some c)
                       (totalDuration r) = Ok (Some ops) /\
    loop measureText r now s = Ok (recorder_stop (setIsPlaying false (push_painted ops s))).
Proof.
  intros Hr Hle Hs Hc.
  destruct (drawFrame_painted r (totalDuration r) s c Hs Hc) as (ops & Hd & Hp).
  exists ops. split; [assumption|].
  unfold loop. rewrite Hr. cbn [negb].
  apply Qle_bool_iff in Hle. rewrite Hle, Hp. reflexivity.
Qed.

Lemma onstop_restores s cap c :
  capture s = Some cap ->
  recorder cap = Stopping ->
  canvas s = Some c ->
  has_context c = true ->
  let r := cap_render cap in
  exists ops,
    Renderer.drawFrame measureText (plan (props r)) (totalDuration r)
                       (Some (restored r c)) 0 = Ok (Some ops) /\
    onstop measureText s
    = Ok (set_capture
            (Some (mkCapture r (prevW cap) (prevH cap) (prevStyle cap) (chunks cap)
                             Inactive (Some (mkBlob (chunks cap) "video/webm"))))
            (push_painted ops (set_canvas (Some (restored r c)) s))).
Proof.
  intros Hcap Hrec Hs Hc r.
  destruct (drawFrame_painted r 0 (set_canvas (Some (restored r c)) s) (restored r c)
              eq_refl Hc) as (ops & Hd & Hp).
  exists ops. split; [assumption|].
  unfold onstop. rewrite Hcap, Hrec, Hs. fold r. rewrite Hp. reflexivity.
Qed.

Lemma drawFrame_keeps r elapsed s :
  exists s',
    drawFrame measureText r elapsed s = Ok s' /\
    canvas s' = canvas s /\ capture s' = capture s /\ rafQueue s' = rafQueue s.
Proof.
  unfold drawFrame.
  destruct (canvas s) as [c|] eqn:Ec.
  - destruct (has_context c) eqn:Hc.
    + destruct (RendererFacts.drawFrame_paints measureText (plan (props r))
                  (totalDuration r) c elapsed Hc) as (ops & Hd & _).
      rewrite Hd. eexists. split; [reflexivity|]. simpl. auto.
    + rewrite (RendererFacts.drawFrame_skips measureText _ _ (Some c) elapsed Hc).
      eexists. split; [reflexivity|]. auto.
  - rewrite (RendererFacts.drawFrame_skips measureText _ _ None elapsed I).
    eexists. split; [reflexivity|]. auto.
Qed.

Lemma tick_hung cF r now s :
  hung cF s -> exists s', tick measureText r now s = Ok s' /\ hung cF s'.
Proof.
  intros (Hc & Hcap & Hq). unfold tick.
  destruct (negb (isPlaying r) || Qeq_bool (startTimeRef s) 0).
  - exists s. split; [reflexivity|]. repeat split; assumption.
  - destruct (Qle_bool (totalDuration r) (now - startTimeRef s)).
    + destruct (drawFrame_keeps r (totalDuration r) s) as (s1 & -> & H1 & H2 & H3).
      eexists. split; [reflexivity|]. unfold hung. simpl. rewrite H1, H2, H3. auto.
    + destruct (drawFrame_keeps r (now - startTimeRef s) s) as (s1 & -> & H1 & H2 & H3).
      eexists. split; [reflexivity|]. unfold hung. simpl. rewrite H1, H2, H3.
      repeat split; auto. apply Forall_app. split; [assumption|].
      constructor; [exact I|constructor].
Qed.

Lemma run_callback_hung cF cb now s :
  harmless cb -> hung cF s ->
  exists s', run_callback measureText cb now s = Ok s' /\ hung cF s'.
Proof.
  destruct cb as [r|r]; simpl; intros Hh Hs.
  - now apply tick_hung.
  - exists s. split; [now apply loop_aborts|assumption].
Qed.

Lemma callbacks_hung cF now (q : list (nat * Callback)) : forall s,
  Forall (fun e => harmless (snd e)) q -> hung cF s ->
  exists s',
    fold_left (fun acc e => s1 <- acc ;; run_callback measureText (snd e) now s1) q (Ok s)
    = Ok s' /\ hung cF s'.
Proof.
  induction q as [|e q IH]; intros s Hq Hs; simpl.
  - exists s. auto.
  - inversion Hq as [|? ? He Hq']; subst.
    destruct (run_callback_hung cF (snd e) now s He Hs) as (s1 & -> & H1).
    now apply IH.
Qed.

Lemma animation_frame_hung cF now s :
  hung cF s -> exists s', animation_frame measureText now s = Ok s' /\ hung cF s'.
Proof.
  intros (Hc & Hcap & Hq). unfold animation_frame.
  apply callbacks_hung; [assumption|].
  repeat split; simpl; auto.
Qed.

Lemma play_hung cF r now s : hung cF s -> hung cF (play r now s).
Proof.
  intros (Hc & Hcap & Hq). unfold play.
  destruct (plan (props r)); [|repeat split; assumption].
  destruct (isPlaying r); [repeat split; assumption|].
  repeat split; simpl; auto.
  apply Forall_app. split; [assumption|]. constructor; [exact I|constructor].
Qed.

Lemma stop_hung cF r s :
  hung cF s -> exists s', stop measureText r s = Ok s' /\ hung cF s'.
Proof.
  intros (Hc & Hcap & Hq). unfold stop.
  match goal with
  | |- context [drawFrame measureText r 0 ?st] =>
      destruct (drawFrame_keeps r 0 st) as (s1 & -> & H1 & H2 & H3);
      assert (Hst : hung cF st)
  end.
  { cbn [rafRef set_startTime setIsPlaying].
    destruct (rafRef s) as [id|]; [destruct (Nat.eqb id 0)|];
      repeat split; simpl; auto.
    apply Forall_forall. intros e He. apply filter_In in He as [He _].
    rewrite Forall_forall in Hq. now apply Hq. }
  eexists. split; [reflexivity|].
  destruct Hst as (Hc' & Hcap' & Hq'). unfold hung. rewrite H1, H2, H3. auto.
Qed.

Lemma ondataavailable_hung cF d s : hung cF s -> hung cF (ondataavailable d s).
Proof.
  intros (Hc & (cap & Hcap & Hrec & Hout) & Hq). unfold ondataavailable.
  rewrite Hcap, Hrec.
  destruct (Nat.ltb 0 (String.length d)).
  - repeat split; simpl; auto. eexists. split; [reflexivity|]. simpl. auto.
  - repeat split; auto. exists cap. auto.
Qed.

Lemma onstop_hung cF s : hung cF s -> onstop measureText s = Ok s.
Proof.
  intros (_ & (cap & Hcap & Hrec & _) & _). unfold onstop. now rewrite Hcap, Hrec.
Qed.

Lemma step_hung cF e s :
  no_new_capture e = true -> hung cF s ->
  exists s', step measureText e s = Ok s' /\ hung cF s'.
Proof.
  destruct e; simpl; intros He Hs; try discriminate.
  - eexists. split; [reflexivity|]. now apply play_hung.
  - now apply stop_hung.
  - now apply animation_frame_hung.
  - eexists. split; [reflexivity|]. now apply ondataavailable_hung.
  - exists s. split; [now apply (onstop_hung cF)|assumption].
Qed.

Lemma run_hung cF es : forall s,
  Forall (fun e => no_new_capture e = true) es -> hung cF s ->
  exists s', run measureText es s = Ok s' /\ hung cF s'.
Proof.
  induction es as [|e es IH]; intros s Hes Hs; simpl.
  - exists s. auto.
  - inversion Hes as [|? ? He Hes']; subst.
    destruct (step_hung cF e s He Hs) as (s1 & -> & Hs1).
    simpl. now apply IH.
Qed.

(** The state an aborted capture is left in when only frames follow. *)
Lemma capture_abort_state r s c now0 now1 nows :
  plan (props r) <> None ->
  isPlaying r = false ->
  canvas s = Some c ->
  rafQueue s = [] ->
  run measureText (CallRecord r now0 :: Frame now1 :: map Frame nows) s
  = Ok (mkState
          (Some (resize FULL_W FULL_H (Px (inject_Z FULL_W)) (Px (inject_Z FULL_H)) c))
          true now0 (rafRef s) [] (S (nextRafId s)) (painted s)
          (Some (mkCapture r (c_width c) (c_height c) (c_style_width c, c_style_height c)
                           [] Recording None))).
Proof.
  intros Hp Hr Hc Hq.
  destruct (plan (props r)) as [pl|] eqn:Epl; [|congruence].
  cbn [run step]. rewrite (recordFullPlayback_starts r now0 s c pl Epl Hc), Hq.
  cbn. rewrite (loop_aborts r now1 _ Hr). cbn.
  apply frames_idle. reflexivity.
Qed.

Lemma loop_continues r now s c :
  isPlaying r = true ->
  now - startTimeRef s < totalDuration r ->
  canvas s = Some c ->
  has_context c = true ->
  exists ops,
    loop measureText r now s
    = Ok (snd (requestAnimationFrame (Loop r) (push_painted ops s))).
Proof.
  intros Hr Hlt Hs Hc.
  destruct (drawFrame_painted r (now - startTimeRef s) s c Hs Hc) as (ops & _ & Hp).
  exists ops. unfold loop. rewrite Hr. cbn [negb].
  destruct (Qle_bool (totalDuration r) (now - startTimeRef s)) eqn:E.
  - apply Qle_bool_iff in E. lra.
  - rewrite Hp. reflexivity.
Qed.

Lemma frame_recording r cF cap now0 now s :
  isPlaying r = true ->
  has_context cF = true ->
  now - now0 < totalDuration r ->
  recording r cF cap now0 s ->
  exists s', animation_frame measureText now s = Ok s' /\ recording r cF cap now0 s'.
Proof.
  intros Hr Hctx Hlt (Hc & Hcap & Hst & Hp & id & Hq).
  unfold animation_frame. rewrite Hq. cbn [fold_left bind snd run_callback].
  destruct (loop_continues r now (set_rafQueue [] s) cF Hr) as (ops & ->); auto.
  - simpl. now rewrite Hst.
  - eexists. split; [reflexivity|].
    repeat split; simpl; auto. eexists. reflexivity.
Qed.

Lemma frames_recording r cF cap now0 mids : forall s,
  isPlaying r = true ->
  has_context cF = true ->
  Forall (fun m => m - now0 < totalDuration r) mids ->
  recording r cF cap now0 s ->
  exists s', run measureText (map Frame mids) s = Ok s' /\ recording r cF cap now0 s'.
Proof.
  induction mids as [|m mids IH]; intros s Hr Hctx Hm Hs; simpl.
  - exists s. auto.
  - inversion Hm as [|? ? Hlt Hm']; subst.
    destruct (frame_recording r cF cap now0 m s Hr Hctx Hlt Hs) as (s1 & -> & Hs1).
    simpl. now apply IH.
Qed.

(** At the page's props the restored canvas is 360 by 640. *)
Lemma restored_preview r c :
  width (props r) = 360 ->
  height (props r) = 640 ->
  restored r c = mkCanvas 360 640 (Px 360) (Px 640) (has_context c).
Proof. intros Hw Hh. unfold restored. rewrite Hw, Hh. reflexivity. Qed.

Lemma run_app es1 es2 s :
  run measureText (es1 ++ es2) s = (s1 <- run measureText es1 s ;; run measureText es2 s1).
Proof.
  revert s. induction es1 as [|e es1 IH]; intro s; simpl; [reflexivity|].
  destruct (step measureText e s); simpl; [apply IH|reflexivity].
Qed.

End WithMeasure.
End PlayerFacts.

(** * The claims *)

Import Str Timeline.

(** ** Timeline *)

(** C1 (what the code does): when [elapsedMs >= totalDuration] and no
    duration is negative, the scan visits every beat without breaking, so
    [beatIndex] keeps its initial value 0: the resolved beat is the FIRST
    beat of the plan and [t] is [elapsedMs - totalDuration] -- not the last
    beat with [t] equal to its duration. *)
Theorem beatAt_past_end_resolves_first_beat (p : ReelPlan) (elapsed : Q) :
  Forall (fun b => 0 <= durationMs b) (beats p) ->
  totalDuration (Some p) <= elapsed ->
  exists r,
    resolve_beat (Some p) elapsed = Ok r /\
    beatIndex (scan r) = 0%nat /\
    beat r = nth_error (beats p) 0 /\
    t (scan r) == elapsed - totalDuration (Some p).
Proof.
  intros Hpos Hle. unfold resolve_beat.
  rewrite TimelineFacts.scan_loop_total. cbn [bind beats_of].
  rewrite TimelineFacts.totalDuration_sum in Hle.
  destruct (TimelineFacts.scan_list_past_end (beats p) 0 (mkScan elapsed 0 0) Hpos Hle)
    as (Hi & Ht & _). cbn [t beatIndex] in Hi, Ht.
  eexists. split; [reflexivity|]. cbn [scan beat].
  rewrite Hi. split; [reflexivity|]. split; [reflexivity|].
  rewrite Ht, TimelineFacts.totalDuration_sum. reflexivity.
Qed.

(** C1, at the plan [A:1000, B:2000] and [elapsedMs = 3000]: the resolved
    beat is A (not B) and [t] is 0 (not 2000). *)
Lemma beatAt_past_end_AB :
  (Forall (fun b => 0 <= durationMs b) (beats Examples.planAB) /\
   totalDuration (Some Examples.planAB) <= 3000) /\
  (exists r,
    resolve_beat (Some Examples.planAB) 3000 = Ok r /\
    beatIndex (scan r) = 0%nat /\
    beat r = Some Examples.beatA /\
    t (scan r) == 3000 - totalDuration (Some Examples.planAB)).
Proof.
  assert (H1 : Forall (fun b => 0 <= durationMs b) (beats Examples.planAB)).
  { repeat constructor; simpl; lra. }
  assert (H2 : totalDuration (Some Examples.planAB) <= 3000).
  { vm_compute. discriminate. }
  split; [split; assumption|].
  exact (beatAt_past_end_resolves_first_beat Examples.planAB 3000 H1 H2).
Defined.

(** C5: for [0 <= elapsedMs < totalDuration] the scan resolves to the first
    beat [k] whose cumulative start is [<= elapsedMs] and whose cumulative end
    is [> elapsedMs]; [t] is [elapsedMs] minus that cumulative start, it lies
    in [0, durationMs), and [progress] is [clamp (t / durationMs) 0 1]. *)
Theorem beatAt_within_timeline (p : ReelPlan) (elapsed : Q) :
  0 <= elapsed ->
  elapsed < totalDuration (Some p) ->
  exists r k b,
    resolve_beat (Some p) elapsed = Ok r /\
    beatIndex (scan r) = k /\
    beat r = Some b /\
    nth_error (beats p) k = Some b /\
    covers (beats p) elapsed k /\
    (forall j, (j < k)%nat -> ~ covers (beats p) elapsed j) /\
    t (scan r) == elapsed - cumStart (beats p) k /\
    0 <= t (scan r) < durationMs b /\
    progress r == clamp (t (scan r) / durationMs b) 0 1.
Proof.
  intros H0 Hlt. unfold resolve_beat.
  rewrite TimelineFacts.scan_loop_total. cbn [bind beats_of].
  rewrite TimelineFacts.totalDuration_sum in Hlt.
  destruct (TimelineFacts.scan_list_within (beats p) 0 (mkScan elapsed 0 0) H0 Hlt)
    as (k & b & Hn & Hi & Ht & _ & He & Hf & Hd). cbn [t beatIndex] in *.
  rewrite Nat.add_0_l in Hi.
  eexists. exists k, b. split; [reflexivity|]. cbn [scan beat progress].
  rewrite Hi, Hn.
  repeat split; auto.
  - destruct k as [|k]; [exact H0|]. apply (Hf k). lia.
  - intros j Hj [_ Hc]. specialize (Hf j Hj). lra.
  - apply Hd.
  - apply Hd.
  - apply TimelineFacts.min_max_clamp.
Qed.

(** C5, scenario B: for beats [A:1000, B:2000], [beatAt] at 1500 yields
    beat B with [intraBeatElapsedMs = 500]. *)
Lemma beatAt_scenario_B :
  (0 <= 1500 /\ 1500 < totalDuration (Some Examples.planAB)) /\
  (exists r k b,
    resolve_beat (Some Examples.planAB) 1500 = Ok r /\
    beatIndex (scan r) = k /\
    beat r = Some b /\
    nth_error (beats Examples.planAB) k = Some b /\
    covers (beats Examples.planAB) 1500 k /\
    (forall j, (j < k)%nat -> ~ covers (beats Examples.planAB) 1500 j) /\
    t (scan r) == 1500 - cumStart (beats Examples.planAB) k /\
    0 <= t (scan r) < durationMs b /\
    progress r == clamp (t (scan r) / durationMs b) 0 1) /\
  (exists r,
    resolve_beat (Some Examples.planAB) 1500 = Ok r /\
    beat r = Some Examples.beatB /\
    t (scan r) == 500).
Proof.
  assert (H1 : 0 <= 1500) by lra.
  assert (H2 : 1500 < totalDuration (Some Examples.planAB)) by (vm_compute; reflexivity).
  split; [split; assumption|]. split.
  - exact (beatAt_within_timeline Examples.planAB 1500 H1 H2).
  - eexists. split; [vm_compute; reflexivity|]. split; reflexivity.
Defined.

(** ** Word wrap *)

(** C6: a line of [wrapText] that measures strictly wider than [maxWidth]
    is a single word: it is one of the words of the text, and splitting it
    at spaces gives back the line alone. *)
Theorem wrapText_wide_line_is_single_word
    (measure : string -> Q) (text : string) (maxWidth : Q) (l : string) :
  In l (Wrap.wrapText measure text maxWidth) ->
  maxWidth < measure l ->
  In l (split_space text) /\ split_space l = [l].
Proof.
  intros Hin Hwide.
  pose proof (WrapFacts.wrap_words_fits measure maxWidth (split_space text)) as Hall.
  rewrite Forall_forall in Hall. destruct (Hall l Hin) as [Hfit | Hword].
  - lra.
  - split; [assumption|].
    apply StrFacts.split_space_word.
    pose proof (StrFacts.split_space_no_space text) as Hns.
    rewrite Forall_forall in Hns. now apply Hns.
Qed.

(** C6, on a text whose first word is wider than the limit. *)
Lemma wrapText_wide_line_example :
  (In "extraordinary"%string (Wrap.wrapText Examples.char_measure "extraordinary day" 200) /\
   200 < Examples.char_measure "extraordinary") /\
  (In "extraordinary"%string (split_space "extraordinary day") /\
   split_space "extraordinary" = ["extraordinary"%string]).
Proof.
  assert (H1 : In "extraordinary"%string
                  (Wrap.wrapText Examples.char_measure "extraordinary day" 200))
    by (vm_compute; auto).
  assert (H2 : 200 < Examples.char_measure "extraordinary") by (vm_compute; reflexivity).
  split; [split; assumption|].
  exact (wrapText_wide_line_is_single_word Examples.char_measure
           "extraordinary day" 200 "extraordinary" H1 H2).
Defined.

(** C10: when every space-separated word of the text is non-empty, joining
    the lines of [wrapText] with single spaces gives back the text, and the
    words of the lines, in order, are the words of the text. *)
Theorem wrapText_preserves_text (measure : string -> Q) (text : string) (maxWidth : Q) :
  Forall (fun w => w <> EmptyString) (split_space text) ->
  join_space (Wrap.wrapText measure text maxWidth) = text /\
  flat_map split_space (Wrap.wrapText measure text maxWidth) = split_space text.
Proof.
  intro Hne.
  assert (Hj : join_space (Wrap.wrapText measure text maxWidth) = text).
  { unfold Wrap.wrapText. rewrite WrapFacts.wrap_words_join by assumption.
    apply StrFacts.join_split. }
  split; [assumption|].
  destruct (Wrap.wrapText measure text maxWidth) as [|a ls] eqn:E.
  - simpl in Hj. subst text. inversion Hne; subst. congruence.
  - rewrite <- StrFacts.split_join_flat by discriminate. now rewrite Hj.
Qed.

(** C10, on a three-word text wrapped into two lines. *)
Lemma wrapText_preserves_text_example :
  Forall (fun w => w <> EmptyString) (split_space "make it short") /\
  (join_space (Wrap.wrapText Examples.char_measure "make it short" 300) = "make it short"%string /\
   flat_map split_space (Wrap.wrapText Examples.char_measure "make it short" 300)
   = split_space "make it short").
Proof.
  assert (H : Forall (fun w => w <> EmptyString) (split_space "make it short"))
    by (repeat constructor; discriminate).
  split; [assumption|].
  exact (wrapText_preserves_text Examples.char_measure "make it short" 300 H).
Defined.

(** C8 as stated fails: with a measure that finds [a ] wide but [a b]
    narrow, the text [a  b] (two spaces) wraps to the lines [a] and [b],
    and wrapping the rejoined text [a b] gives the single line [a b]. *)
Lemma wrapText_not_idempotent :
  Wrap.wrapText Examples.odd_measure "a  b" 5 = ["a"; "b"]%string /\
  Wrap.wrapText Examples.odd_measure
    (join_space (Wrap.wrapText Examples.odd_measure "a  b" 5)) 5 = ["a b"%string].
Proof. split; vm_compute; reflexivity. Qed.

(** C8, amended: wrapping the rejoined lines again gives the same lines
    when every word of the text is non-empty, or when the measure never
    reports a line as narrower once a further word is appended after a
    space. *)
Theorem wrapText_idempotent (measure : string -> Q) (text : string) (maxWidth : Q) :
  Forall (fun w => w <> EmptyString) (split_space text) \/ Wrap.measure_monotone measure ->
  Wrap.wrapText measure (join_space (Wrap.wrapText measure text maxWidth)) maxWidth
  = Wrap.wrapText measure text maxWidth.
Proof.
  intro H. unfold Wrap.wrapText.
  apply WrapFacts.wrap_words_rewrap.
  - apply StrFacts.split_space_no_space.
  - intro Hin. destruct H as [Hne | Hm]; [|assumption].
    rewrite Forall_forall in Hne. now destruct (Hne _ Hin).
Qed.

Lemma char_measure_monotone : Wrap.measure_monotone Examples.char_measure.
Proof.
  intros s w. unfold Examples.char_measure.
  rewrite !StrFacts.length_append. simpl String.length.
  apply Qmult_le_l; [reflexivity|].
  rewrite <- Zle_Qle. lia.
Qed.

(** C8, amended, on a text with a doubled space under the per-character
    measure: the empty word is dropped by the first pass and the second
    pass breaks at the same place. *)
Lemma wrapText_idempotent_example :
  (Forall (fun w => w <> EmptyString) (split_space "a  b") \/
   Wrap.measure_monotone Examples.char_measure) /\
  Wrap.wrapText Examples.char_measure
    (join_space (Wrap.wrapText Examples.char_measure "a  b" 60)) 60
  = Wrap.wrapText Examples.char_measure "a  b" 60.
Proof.
  split.
  - right. exact char_measure_monotone.
  - exact (wrapText_idempotent Examples.char_measure "a  b" 60
             (or_intror char_measure_monotone)).
Defined.

(** ** Easing *)

(** C9: [ease t = 4 t^3] below one half and [1 - (-2 t + 2)^3 / 2] from one
    half on; [ease 0 = 0], [ease (1/2) = 1/2], [ease 1 = 1]; and [ease] is
    non-decreasing on the unit interval. *)
Theorem easeInOutCubic_spec :
  (forall t, t < 1#2 -> easeInOutCubic t == 4 * t ^ 3) /\
  (forall t, 1#2 <= t -> easeInOutCubic t == 1 - (-2 * t + 2) ^ 3 / 2) /\
  easeInOutCubic 0 == 0 /\
  easeInOutCubic (1#2) == 1#2 /\
  easeInOutCubic 1 == 1 /\
  (forall a b, 0 <= a -> a <= b -> b <= 1 -> easeInOutCubic a <= easeInOutCubic b).
Proof.
  repeat split.
  - intros t Ht. unfold easeInOutCubic.
    apply Qltb_lt in Ht. rewrite Ht, Qpow3. ring.
  - intros t Ht. unfold easeInOutCubic.
    apply Qltb_ge in Ht. rewrite Ht. reflexivity.
  - exact ease_mono.
Qed.

(** ** Renderer *)

Import Renderer.

(** C7 as stated fails for the title: with no plan the header paints the
    default text [Reel], not the empty string. *)
Lemma drawFrame_null_plan_header :
  match drawFrame Examples.measureText_demo None 0 (Some Examples.default_canvas) 0 with
  | Ok (Some ops) => header_text ops
  | _ => None
  end = Some "Reel"%string.
Proof. vm_compute. reflexivity. Qed.

(** C7, amended: on a canvas with a context [drawFrame] returns normally
    for every plan (none included) and every instant; an absent title is
    painted as the default [Reel], an absent CTA and an absent hashtag list
    as the empty string. *)
Theorem drawFrame_never_throws
    (measureText : string -> string -> Q) (plan : option ReelPlan)
    (total : Q) (c : Canvas) (elapsed : Q) :
  has_context c = true ->
  exists ops,
    drawFrame measureText plan total (Some c) elapsed = Ok (Some ops) /\
    (plan_title plan = None -> header_text ops = Some "Reel"%string) /\
    (plan_cta plan = None -> option_map fst (footer_texts ops) = Some EmptyString) /\
    (plan_hashtags plan = None -> option_map snd (footer_texts ops) = Some EmptyString).
Proof.
  intro Hc.
  destruct (RendererFacts.drawFrame_paints measureText plan total c elapsed Hc)
    as (ops & Hd & Hh & Hf).
  exists ops. split; [assumption|]. rewrite Hh, Hf. cbn [option_map fst snd].
  repeat split.
  - intros ->. reflexivity.
  - intros ->. reflexivity.
  - intro Ht. unfold plan_tags. destruct plan as [p|]; [|reflexivity].
    simpl in Ht. now rewrite Ht.
Qed.

(** C7, amended, with no plan at all. *)
Lemma drawFrame_null_plan :
  has_context Examples.default_canvas = true /\
  (exists ops,
    drawFrame Examples.measureText_demo None 0 (Some Examples.default_canvas) 0
      = Ok (Some ops) /\
    (plan_title None = None -> header_text ops = Some "Reel"%string) /\
    (plan_cta None = None -> option_map fst (footer_texts ops) = Some EmptyString) /\
    (plan_hashtags None = None -> option_map snd (footer_texts ops) = Some EmptyString)).
Proof.
  split; [reflexivity|].
  exact (drawFrame_never_throws Examples.measureText_demo None 0
           Examples.default_canvas 0 eq_refl).
Defined.

(** ** Playback controller *)

Import Player.

(** C4 (what the code does): two calls of [play] in a row through the same
    handle (the closures of one render, where [isPlaying] is [false]) both
    pass the guard of line 140, which reads that render's constant and not
    the cell [setIsPlaying] wrote.  Each call schedules a tick callback, so
    the queue holds two more than before, not one; [rafRef] keeps the id of
    the second only, and the anchor is that of the second call. *)
Theorem play_same_handle_twice_schedules_twice
    (r : Render) (now1 now2 : Q) (s : State) :
  plan (props r) <> None ->
  isPlaying r = false ->
  let s2 := play r now2 (play r now1 s) in
  rafQueue s2 = rafQueue s ++ [(nextRafId s, Tick r); (S (nextRafId s), Tick r)] /\
  rafRef s2 = Some (S (nextRafId s)) /\
  startTimeRef s2 = now2 /\
  isPlayingState s2 = true.
Proof.
  intros Hp Hr. unfold play.
  destruct (plan (props r)); [clear Hp|congruence].
  rewrite Hr. cbn. rewrite <- app_assoc. repeat split; reflexivity.
Qed.

(** C4, on the mounted preview: Play pressed twice before React renders
    again leaves two tick callbacks in the queue. *)
Lemma play_twice_same_handle_two_ticks :
  (plan (props Examples.idle_render) <> None /\
   isPlaying Examples.idle_render = false) /\
  rafQueue (play Examples.idle_render 20 (play Examples.idle_render 10 Examples.mounted))
  = [(1%nat, Tick Examples.idle_render); (2%nat, Tick Examples.idle_render)].
Proof.
  assert (H1 : plan (props Examples.idle_render) <> None) by discriminate.
  assert (H2 : isPlaying Examples.idle_render = false) by reflexivity.
  split; [split; assumption|].
  exact (proj1 (play_same_handle_twice_schedules_twice Examples.idle_render 10 20
                  Examples.mounted H1 H2)).
Defined.

(** Where the guard of line 140 does hold: [play] changes nothing when its
    render has no plan or has [isPlaying = true]; so a second [play] through
    the handle of the render that follows the first schedules nothing
    more. *)
Lemma play_guard_single_tick :
  (forall r now s, plan (props r) = None \/ isPlaying r = true -> play r now s = s) /\
  (forall p pl now1 now2 s,
     plan p = Some pl ->
     isPlayingState s = false ->
     rafQueue s = [] ->
     let r1 := render_of p s in
     let s1 := play r1 now1 s in
     let r2 := render_of p s1 in
     rafQueue s1 = [(nextRafId s, Tick r1)] /\
     isPlayingState s1 = true /\
     startTimeRef s1 = now1 /\
     play r2 now2 s1 = s1).
Proof.
  split.
  - intros r now s [Hp | Hr]; unfold play.
    + now rewrite Hp.
    + rewrite Hr. now destruct (plan (props r)).
  - intros p pl now1 now2 s Hp Hs Hq r1 s1 r2.
    subst r1 s1 r2. unfold play, render_of. cbn [props isPlaying isPlayingState].
    rewrite Hp, Hs. cbn. rewrite Hq. cbn. repeat split; reflexivity.
Qed.

(** On the mounted preview: pressing Play twice, with the render in
    between. *)
Lemma play_twice_after_render :
  let s := Examples.mounted in
  let r1 := render_of Examples.preview_props s in
  let s1 := play r1 10 s in
  let r2 := render_of Examples.preview_props s1 in
  rafQueue s1 = [(nextRafId s, Tick r1)] /\
  isPlayingState s1 = true /\
  startTimeRef s1 = 10 /\
  play r2 20 s1 = s1.
Proof.
  exact (proj2 play_guard_single_tick Examples.preview_props Examples.planAB 10 20
           Examples.mounted eq_refl eq_refl eq_refl).
Defined.

(** ** Capture controller *)

(** C2 (what the code does): a capture whose loop reads [isPlaying = false]
    takes the early return of line 178.  Nothing stops the recorder, so
    [done] never resolves and lines 193-198 never run: whatever follows --
    animation frames, data and stop events of the recorder, calls of [play]
    and [stop] -- the canvas keeps the full export size and the promise of
    [recordFullPlayback] stays pending.  (Only a new capture, or the layout
    effect on a change of props, touches the canvas size again.) *)
Theorem capture_abort_skips_restoration
    (measureText : string -> string -> Q) (r : Render) (s : State) (c : Canvas)
    (now0 : Q) (es : list Event) :
  plan (props r) <> None ->
  isPlaying r = false ->
  canvas s = Some c ->
  Forall (fun e => harmless (snd e)) (rafQueue s) ->
  Forall (fun e => no_new_capture e = true) es ->
  exists s' cap,
    run measureText (CallRecord r now0 :: es) s = Ok s' /\
    canvas s' = Some (resize FULL_W FULL_H (Px (inject_Z FULL_W)) (Px (inject_Z FULL_H)) c) /\
    capture s' = Some cap /\
    recorder cap = Recording /\
    outcome cap = None.
Proof.
  intros Hp Hr Hc Hq Hes.
  destruct (plan (props r)) as [pl|] eqn:Epl; [clear Hp|congruence].
  cbn [run step]. rewrite (PlayerFacts.recordFullPlayback_starts r now0 s c pl Epl Hc).
  cbn [bind].
  match goal with
  | |- context [run measureText es ?st] =>
      destruct (PlayerFacts.run_hung measureText
                  (resize FULL_W FULL_H (Px (inject_Z FULL_W)) (Px (inject_Z FULL_H)) c)
                  es st Hes) as (s' & Hrun & Hc' & (cap & Hcap & Hrec & Hout) & _)
  end.
  { repeat split; simpl.
    - eexists. split; [reflexivity|]. simpl. auto.
    - apply Forall_app. split; [assumption|]. constructor; [exact Hr|constructor]. }
  exists s', cap. auto.
Qed.

(** C2, on the mounted preview: Export pressed while nothing plays; then a
    frame, Stop, another frame, a chunk of data and a recorder stop event.
    The canvas was 1080 x 1920 styled 360px x 640px before the capture and
    is left styled 1080px x 1920px, with the promise pending. *)
Lemma capture_abort_on_mounted_preview :
  (plan (props Examples.idle_render) <> None /\
   isPlaying Examples.idle_render = false /\
   canvas Examples.mounted = Some (mkCanvas 1080 1920 (Px 360) (Px 640) true) /\
   Forall (fun e => harmless (snd e)) (rafQueue Examples.mounted) /\
   Forall (fun e => no_new_capture e = true)
          [Frame 116; CallStop Examples.idle_render; Frame 132;
           DataAvailable "chunk"%string; RecorderStopped]) /\
  exists s' cap,
    run Examples.measureText_demo
        (CallRecord Examples.idle_render 100 ::
         [Frame 116; CallStop Examples.idle_render; Frame 132;
          DataAvailable "chunk"%string; RecorderStopped])
        Examples.mounted = Ok s' /\
    canvas s' = Some (mkCanvas 1080 1920 (Px 1080) (Px 1920) true) /\
    capture s' = Some cap /\
    recorder cap = Recording /\
    outcome cap = None.
Proof.
  assert (H1 : plan (props Examples.idle_render) <> None) by discriminate.
  assert (H2 : isPlaying Examples.idle_render = false) by reflexivity.
  assert (H3 : canvas Examples.mounted = Some (mkCanvas 1080 1920 (Px 360) (Px 640) true))
    by (vm_compute; reflexivity).
  assert (H4 : Forall (fun e => harmless (snd e)) (rafQueue Examples.mounted))
    by (vm_compute; constructor).
  assert (H5 : Forall (fun e => no_new_capture e = true)
                 [Frame 116; CallStop Examples.idle_render; Frame 132;
                  DataAvailable "chunk"%string; RecorderStopped])
    by (repeat constructor).
  split; [repeat split; assumption|].
  exact (capture_abort_skips_restoration Examples.measureText_demo Examples.idle_render
           Examples.mounted _ 100 _ H1 H2 H3 H4 H5).
Defined.

(** What [stop] does to a capture whose loop is running (its render has
    [isPlaying = true]): the loop does not see the call, but [stop] resets
    [startTimeRef] to 0, so the next tick computes [elapsed = now], finds the
    timeline over, and stops the recorder.  Here the capture starts at 5000,
    [stop] is called after one frame, and at 5032 -- 32 ms into a reel of
    3000 ms -- the capture resolves with a blob and the canvas is resized
    from the props. *)
Lemma capture_stopped_midflight_resolves_early :
  5032 - 5000 < totalDuration Examples.playing_render /\
  match run Examples.measureText_demo
            [CallRecord Examples.playing_render 5000; Frame 5016;
             CallStop Examples.playing_render; Frame 5032; RecorderStopped]
            Examples.after_play with
  | Ok s' => (option_map geometry (canvas s'), option_map outcome (capture s'))
  | Throw _ => (None, None)
  end
  = (Some (360%Z, 640%Z, Px 360, Px 640), Some (Some (mkBlob [] "video/webm"))).
Proof. split; vm_compute; reflexivity. Qed.

(** C3 (what the code does): with the props the page passes (360 by 640),
    a capture that runs to the end -- frames with [elapsed < totalDuration],
    then one with [elapsed >= totalDuration], then the recorder's stop event
    -- leaves the canvas 360 by 640, styled 360px by 640px, whatever the
    canvas measured before the capture: lines 194-197 compute the sizes from
    the props, and the snapshot [prevW], [prevH], [prevStyle] of line 158 is
    never read.  It then paints the frame for [elapsed = 0] and resolves
    with the blob; [startTimeRef] is left at the start of the capture and
    the [isPlaying] cell ends [false]. *)
Theorem capture_success_restores_from_props
    (measureText : string -> string -> Q) (r : Render) (s : State) (c : Canvas)
    (now0 now1 : Q) (mids : list Q) :
  plan (props r) <> None ->
  width (props r) = 360 ->
  height (props r) = 640 ->
  isPlaying r = true ->
  canvas s = Some c ->
  has_context c = true ->
  rafQueue s = [] ->
  Forall (fun m => m - now0 < totalDuration r) mids ->
  totalDuration r <= now1 - now0 ->
  let back := mkCanvas 360 640 (Px 360) (Px 640) (has_context c) in
  exists s' first,
    run measureText (CallRecord r now0 :: map Frame mids ++ [Frame now1; RecorderStopped]) s
      = Ok s' /\
    canvas s' = Some back /\
    Renderer.drawFrame measureText (plan (props r)) (totalDuration r) (Some back) 0
      = Ok (Some first) /\
    hd_error (painted s') = Some first /\
    capture s' = Some (mkCapture r (c_width c) (c_height c)
                                 (c_style_width c, c_style_height c) [] Inactive
                                 (Some (mkBlob [] "video/webm"))) /\
    isPlayingState s' = false /\
    startTimeRef s' = now0 /\
    rafQueue s' = [].
Proof.
  intros Hp Hw Hh Hr Hc Hctx Hq Hmids Hle back.
  set (full := resize FULL_W FULL_H (Px (inject_Z FULL_W)) (Px (inject_Z FULL_H)) c).
  assert (Hback : restored r full = back) by exact (PlayerFacts.restored_preview r full Hw Hh).
  destruct (plan (props r)) as [pl|] eqn:Epl; [clear Hp|congruence].
  cbn [run step].
  rewrite (PlayerFacts.recordFullPlayback_starts r now0 s c pl Epl Hc), Hq.
  cbn [bind app]. fold full.
  set (cap := mkCapture r (c_width c) (c_height c) (c_style_width c, c_style_height c)
                        [] Recording None).
  rewrite PlayerFacts.run_app.
  match goal with
  | |- context [run measureText (map Frame mids) ?st] =>
      destruct (PlayerFacts.frames_recording measureText r full cap now0 mids st Hr Hctx Hmids)
        as (s1 & -> & Hc1 & Hcap1 & Hst1 & Hp1 & id & Hq1)
  end.
  { repeat split; simpl; auto. eexists. reflexivity. }
  cbn [bind run step]. unfold animation_frame. rewrite Hq1.
  cbn [fold_left bind snd run_callback].
  destruct (PlayerFacts.loop_finishes measureText r now1 (set_rafQueue [] s1) full Hr)
    as (last & _ & ->); auto.
  { simpl. now rewrite Hst1. }
  cbn [bind]. unfold recorder_stop.
  cbn [capture setIsPlaying push_painted set_rafQueue]. rewrite Hcap1.
  cbn [recorder cap].
  match goal with
  | |- context [onstop measureText ?st] =>
      destruct (PlayerFacts.onstop_restores measureText st
                  (mkCapture r (c_width c) (c_height c) (c_style_width c, c_style_height c)
                             [] Stopping None) full eq_refl eq_refl Hc1 Hctx)
        as (first & Hfirst & ->)
  end.
  cbn [cap_render] in Hfirst. rewrite Epl, Hback in Hfirst.
  eexists. exists first. split; [reflexivity|].
  cbn [cap_render]. rewrite Hback.
  cbn. rewrite Hst1. repeat split; auto.
Qed.

(** C3, on the page's preview after Play: before the capture the canvas is
    1080 x 1920 (set by the layout effect) styled 360px x 640px; after the
    capture it is 360 x 640, while the snapshot taken at the start reads
    1080 x 1920. *)
Lemma capture_success_on_preview :
  (plan (props Examples.playing_render) <> None /\
   width (props Examples.playing_render) = 360 /\
   height (props Examples.playing_render) = 640 /\
   isPlaying Examples.playing_render = true /\
   canvas Examples.after_play = Some (mkCanvas 1080 1920 (Px 360) (Px 640) true) /\
   rafQueue Examples.after_play = [] /\
   Forall (fun m => m - 100 < totalDuration Examples.playing_render) [116; 1600] /\
   totalDuration Examples.playing_render <= 3200 - 100) /\
  exists s',
    run Examples.measureText_demo
        (CallRecord Examples.playing_render 100 ::
         map Frame [116; 1600] ++ [Frame 3200; RecorderStopped])
        Examples.after_play = Ok s' /\
    option_map geometry (canvas s') = Some (360%Z, 640%Z, Px 360, Px 640) /\
    option_map prevW (capture s') = Some 1080%Z /\
    option_map prevH (capture s') = Some 1920%Z /\
    option_map outcome (capture s') = Some (Some (mkBlob [] "video/webm")).
Proof.
  assert (H1 : plan (props Examples.playing_render) <> None) by discriminate.
  assert (Hw : width (props Examples.playing_render) = 360) by reflexivity.
  assert (Hh : height (props Examples.playing_render) = 640) by reflexivity.
  assert (H2 : isPlaying Examples.playing_render = true) by (vm_compute; reflexivity).
  assert (H3 : canvas Examples.after_play = Some (mkCanvas 1080 1920 (Px 360) (Px 640) true))
    by (vm_compute; reflexivity).
  assert (H4 : rafQueue Examples.after_play = []) by (vm_compute; reflexivity).
  assert (H5 : Forall (fun m => m - 100 < totalDuration Examples.playing_render) [116; 1600])
    by (repeat constructor).
  assert (H6 : totalDuration Examples.playing_render <= 3200 - 100)
    by (vm_compute; discriminate).
  split; [repeat split; assumption|].
  destruct (capture_success_restores_from_props Examples.measureText_demo
              Examples.playing_render Examples.after_play _ 100 3200 [116; 1600]
              H1 Hw Hh H2 H3 eq_refl H4 H5 H6)
    as (s' & first & Hrun & Hcanvas & _ & _ & Hcap & _).
  exists s'. split; [exact Hrun|].
  rewrite Hcanvas, Hcap. repeat split.
Defined.

(** * Further properties *)

(** ** Easing *)

(** X1: the easing curve is point-symmetric about (1/2, 1/2):
    [ease (1 - t) = 1 - ease t], for every [t]. *)
Theorem easeInOutCubic_symmetric (t : Q) :
  easeInOutCubic (1 - t) == 1 - easeInOutCubic t.
Proof.
  unfold easeInOutCubic.
  destruct (Qltb (1 - t) (1#2)) eqn:E1; destruct (Qltb t (1#2)) eqn:E2.
  - apply Qltb_lt in E1, E2. lra.
  - rewrite Qpow3. field.
  - rewrite Qpow3. field.
  - apply Qltb_ge in E1, E2.
    assert (Ht : t == 1#2) by lra.
    rewrite Ht. reflexivity.
Qed.

Lemma ease_range t : 0 <= t -> t <= 1 -> 0 <= easeInOutCubic t <= 1.
Proof.
  intros H0 H1. split.
  - apply (Qle_trans _ (easeInOutCubic 0)); [discriminate|].
    apply ease_mono; lra.
  - apply (Qle_trans _ (easeInOutCubic 1)); [|discriminate].
    apply ease_mono; lra.
Qed.

(** X2: on the unit interval the eased value stays in the unit interval. *)
Theorem easeInOutCubic_unit_interval (t : Q) :
  0 <= t -> t <= 1 -> 0 <= easeInOutCubic t <= 1.
Proof. exact (ease_range t). Qed.

(** X2, at one quarter. *)
Lemma easeInOutCubic_unit_interval_quarter :
  (0 <= 1#4 /\ 1#4 <= 1) /\ 0 <= easeInOutCubic (1#4) <= 1.
Proof.
  assert (H0 : 0 <= 1#4) by discriminate.
  assert (H1 : 1#4 <= 1) by discriminate.
  split; [split; assumption|].
  exact (easeInOutCubic_unit_interval (1#4) H0 H1).
Defined.

(** ** Timeline *)

Lemma scan_list_split bs : forall i s,
  t (scan_list bs i s) + beatStart (scan_list bs i s) == t s + beatStart s.
Proof.
  induction bs as [|b bs IH]; intros i s; simpl; [reflexivity|].
  destruct (Qltb (t s) (durationMs b)); simpl; [reflexivity|].
  rewrite IH. simpl. ring.
Qed.

Lemma scan_list_index bs : forall i s,
  beatIndex (scan_list bs i s) = beatIndex s \/
  (i <= beatIndex (scan_list bs i s) < i + List.length bs)%nat.
Proof.
  induction bs as [|b bs IH]; intros i s; simpl; [now left|].
  destruct (Qltb (t s) (durationMs b)); simpl; [right; lia|].
  destruct (IH (S i) (mkScan (t s - durationMs b) (beatIndex s)
                             (beatStart s + durationMs b))) as [H|H]; simpl in H.
  - now left.
  - right. lia.
Qed.

Lemma unit_clamp x : 0 <= Qmin 1 (Qmax 0 x) <= 1.
Proof.
  rewrite TimelineFacts.min_max_clamp. unfold clamp.
  destruct (Qltb x 0) eqn:E0; [split; discriminate|].
  destruct (Qltb 1 x) eqn:E1; [split; discriminate|].
  apply Qltb_ge in E0, E1. split; assumption.
Qed.

(** The quotient of line 72 is clamped into the unit interval; it is the
    source's quotient when the durations are positive. *)
Lemma resolve_beat_progress plan elapsed r :
  Forall (fun b => 0 < durationMs b) (beats_of plan) ->
  resolve_beat plan elapsed = Ok r -> 0 <= progress r <= 1.
Proof.
  unfold resolve_beat. rewrite TimelineFacts.scan_loop_total. cbn [bind].
  intros _ H. injection H as <-. cbn [progress].
  destruct (nth_error (beats_of plan) _); [apply unit_clamp|split; discriminate].
Qed.

(** X3: the beat scan returns normally for every plan (none included) and
    every instant, negative ones and those past the end included.  Its two
    counters always add up to the instant ([t + beatStart = elapsed]), it
    resolves a beat exactly when the plan has at least one, and, when every
    beat of the plan has a positive duration, the progress it reports lies
    in the unit interval. *)
Theorem resolve_beat_total (plan : option ReelPlan) (elapsed : Q) :
  exists r,
    resolve_beat plan elapsed = Ok r /\
    t (scan r) + beatStart (scan r) == elapsed /\
    (beat r = None <-> beats_of plan = []) /\
    (Forall (fun b => 0 < durationMs b) (beats_of plan) -> 0 <= progress r <= 1).
Proof.
  destruct (RendererFacts.resolve_beat_ok plan elapsed) as [r Hr].
  exists r. split; [assumption|].
  assert (Hp : Forall (fun b => 0 < durationMs b) (beats_of plan) -> 0 <= progress r <= 1)
    by (intro Hpos; exact (resolve_beat_progress plan elapsed r Hpos Hr)).
  unfold resolve_beat in Hr. rewrite TimelineFacts.scan_loop_total in Hr.
  cbn [bind] in Hr. injection Hr as <-. cbn [scan beat].
  split; [|split; [|exact Hp]].
  - rewrite scan_list_split. simpl. ring.
  - destruct (scan_list_index (beats_of plan) 0 (mkScan elapsed 0 0)) as [H|H];
      cbn [beatIndex] in H.
    + rewrite H. destruct (beats_of plan); simpl; split; congruence.
    + split; intro Hn.
      * apply nth_error_None in Hn. lia.
      * rewrite Hn in H. simpl in H. lia.
Qed.

(** X3, on the two-beat plan, 400 ms past the start of the second beat. *)
Lemma resolve_beat_total_example :
  Forall (fun b => 0 < durationMs b) (beats_of (Some Examples.planAB)) /\
  exists r,
    resolve_beat (Some Examples.planAB) 1400 = Ok r /\
    t (scan r) + beatStart (scan r) == 1400 /\
    beat r <> None /\
    0 <= progress r <= 1.
Proof.
  assert (Hpos : Forall (fun b => 0 < durationMs b) (beats_of (Some Examples.planAB)))
    by (repeat constructor).
  split; [exact Hpos|].
  destruct (resolve_beat_total (Some Examples.planAB) 1400) as (r & Hr & Hsum & Hb & Hp).
  exists r. split; [exact Hr|]. split; [exact Hsum|]. split; [|exact (Hp Hpos)].
  intro Hn. apply Hb in Hn. discriminate Hn.
Defined.

(** X4: the total duration is the sum of the beats' durations; with no plan
    it is 0, and appending a beat raises it by that beat's duration. *)
Theorem totalDuration_append
    (ti : option string) (h : string) (c : option string) (hs : option (list string))
    (bs : list Beat) (cs : list string) (b : Beat) :
  Timeline.totalDuration None == 0 /\
  Timeline.totalDuration (Some (mkPlan ti h c hs bs cs)) == sum_durations bs /\
  Timeline.totalDuration (Some (mkPlan ti h c hs (bs ++ [b]) cs))
  == Timeline.totalDuration (Some (mkPlan ti h c hs bs cs)) + durationMs b.
Proof.
  split; [reflexivity|]. split.
  - apply TimelineFacts.totalDuration_sum.
  - unfold Timeline.totalDuration. cbn [beats]. rewrite fold_left_app. reflexivity.
Qed.

(** ** Word wrap *)

Module WrapMore.
Import Str StrFacts Wrap WrapFacts.

Section WithContext.
Variable measure : string -> Q.
Variable maxWidth : Q.

Local Abbreviation wstep := (wrap_step measure maxWidth).
Local Abbreviation forced := (breaks_forced measure maxWidth).

Lemma word_starts w : no_space w = true -> truthy w = true -> starts_with_word w = true.
Proof.
  destruct w as [|c w]; simpl; [discriminate|].
  intros H _. now apply andb_true_iff in H as [H _].
Qed.

Lemma starts_append l x : starts_with_word l = true -> starts_with_word (l ++ x) = true.
Proof. destruct l; simpl; [discriminate|auto]. Qed.

Lemma starts_truthy l : starts_with_word l = true -> truthy l = true.
Proof. destruct l; simpl; [discriminate|auto]. Qed.

Lemma fold_starts ws : forall st,
  Forall (fun w => no_space w = true) ws ->
  Forall (fun l => starts_with_word l = true) (lines st) ->
  (current st = EmptyString \/ starts_with_word (current st) = true) ->
  Forall (fun l => starts_with_word l = true) (finish (fold_left wstep ws st)).
Proof.
  induction ws as [|w ws IH]; intros st Hns Hl Hc; simpl.
  - unfold finish. destruct (truthy (current st)) eqn:Et; [|assumption].
    apply Forall_app. split; [assumption|]. constructor; [|constructor].
    destruct Hc as [Hc|Hc]; [|assumption]. rewrite Hc in Et. discriminate.
  - inversion Hns as [|? ? Hw Hws]; subst. apply IH; [assumption| |].
    + unfold wrap_step, test_line.
      destruct (truthy (current st)) eqn:Et.
      * destruct (Qltb maxWidth (measure (current st ++ " " ++ w))); simpl; [|assumption].
        apply Forall_app. split; [assumption|]. constructor; [|constructor].
        destruct Hc as [Hc|Hc]; [|assumption]. rewrite Hc in Et. discriminate.
      * rewrite andb_false_r. assumption.
    + unfold wrap_step, test_line.
      destruct (truthy (current st)) eqn:Et.
      * destruct (Qltb maxWidth (measure (current st ++ " " ++ w))); simpl.
        -- destruct (truthy w) eqn:Ew; [right; now apply word_starts|].
           left. now apply truthy_false.
        -- right. apply starts_append.
           destruct Hc as [Hc|Hc]; [|assumption]. rewrite Hc in Et. discriminate.
      * rewrite andb_false_r. simpl.
        destruct (truthy w) eqn:Ew; [right; now apply word_starts|].
        left. now apply truthy_false.
Qed.

Lemma fold_finish_nonempty ws : forall st,
  finish st <> [] -> finish (fold_left wstep ws st) <> [].
Proof.
  induction ws as [|w ws IH]; intros st H; simpl; [assumption|].
  apply IH. destruct (wrap_step_kind measure maxWidth st w) as [_ Hf _ | _ _ Hf].
  - assumption.
  - now rewrite Hf.
Qed.

Lemma fold_empty_words ws : forall st,
  finish (fold_left wstep ws st) = [] -> finish st = [] /\ Forall (fun w => w = EmptyString) ws.
Proof.
  induction ws as [|w ws IH]; intros st H; simpl in H; [auto|].
  destruct (IH _ H) as [Hf Hws].
  destruct (wrap_step_kind measure maxWidth st w) as [_ Hne _ | Hw _ Hsame].
  - contradiction.
  - rewrite Hsame in Hf. split; [assumption|]. now constructor.
Qed.

Lemma fold_all_empty ws : forall L,
  Forall (fun w => w = EmptyString) ws ->
  fold_left wstep ws (mkWrap L EmptyString) = mkWrap L EmptyString.
Proof.
  induction ws as [|w ws IH]; intros L H; simpl; [reflexivity|].
  inversion H; subst. rewrite wrap_step_empty_idle. now apply IH.
Qed.

(** *** Forced breaks *)

Lemma first_word_word w : no_space w = true -> first_word w = w.
Proof. intro H. unfold first_word. now rewrite split_space_word. Qed.

Lemma first_word_append c x : first_word (c ++ " " ++ x) = first_word c.
Proof.
  unfold first_word. change (" " ++ x)%string with (String space x).
  rewrite split_space_app.
  destruct (split_space c) eqn:E; [now destruct (split_space_not_nil c)|reflexivity].
Qed.

Lemma forced_grow L : forall c c',
  first_word c' = first_word c -> forced (L ++ [c]) -> forced (L ++ [c']).
Proof.
  induction L as [|a L IH]; intros c c' Hfw H; [exact I|].
  destruct L as [|b L].
  - simpl in *. rewrite Hfw. assumption.
  - change (forced (a :: b :: (L ++ [c']))).
    change (forced (a :: b :: (L ++ [c]))) in H.
    destruct H as [H1 H2]. split; [assumption|].
    apply (IH c c' Hfw H2).
Qed.

Lemma forced_push L : forall c w,
  maxWidth < measure (c ++ " " ++ first_word w) ->
  forced (L ++ [c]) -> forced ((L ++ [c]) ++ [w]).
Proof.
  induction L as [|a L IH]; intros c w Hw H.
  - simpl. auto.
  - destruct L as [|b L].
    + simpl in *. destruct H as [H1 _]. auto.
    + change (forced (a :: b :: ((L ++ [c]) ++ [w]))).
      change (forced (a :: b :: (L ++ [c]))) in H.
      destruct H as [H1 H2]. split; [assumption|].
      apply (IH c w Hw H2).
Qed.

Lemma fold_forced ws : forall st,
  Forall (fun w => no_space w = true) ws ->
  Forall (fun w => w <> EmptyString) ws ->
  truthy (current st) = true ->
  forced (lines st ++ [current st]) ->
  forced (finish (fold_left wstep ws st)).
Proof.
  induction ws as [|w ws IH]; intros st Hns Hne Ht Hf; simpl.
  - unfold finish. now rewrite Ht.
  - inversion Hns as [|? ? Hw Hws]; inversion Hne as [|? ? Hw' Hws']; subst.
    apply IH; auto; unfold wrap_step, test_line; rewrite Ht.
    + destruct (Qltb maxWidth (measure (current st ++ " " ++ w))); simpl.
      * now apply truthy_true.
      * destruct (current st); [discriminate|reflexivity].
    + destruct (Qltb maxWidth (measure (current st ++ " " ++ w))) eqn:Em; simpl.
      * apply forced_push; [|assumption].
        rewrite (first_word_word w Hw). now apply Qltb_lt.
      * apply (forced_grow _ (current st)); [apply first_word_append|assumption].
Qed.

(** *** A text that fits *)

Lemma fold_fits pre rest :
  pre <> [] ->
  truthy (join_space pre) = true ->
  (forall k, (List.length pre < k <= List.length (pre ++ rest))%nat ->
             measure (join_space (firstn k (pre ++ rest))) <= maxWidth) ->
  fold_left wstep rest (mkWrap [] (join_space pre)) = mkWrap [] (join_space (pre ++ rest)).
Proof.
  revert pre. induction rest as [|w rest IH]; intros pre Hpre Ht Hfit; simpl.
  - now rewrite app_nil_r.
  - assert (Hstep : wstep (mkWrap [] (join_space pre)) w = mkWrap [] (join_space (pre ++ [w]))).
    { unfold wrap_step, test_line. cbn [current lines]. rewrite Ht.
      rewrite <- (join_space_snoc pre w Hpre).
      specialize (Hfit (S (List.length pre))).
      rewrite firstn_app, firstn_all2, Nat.sub_succ_l, Nat.sub_diag in Hfit by lia.
      simpl firstn in Hfit.
      apply Qltb_ge in Hfit; [|rewrite length_app; simpl; lia].
      rewrite Hfit. reflexivity. }
    rewrite Hstep.
    replace (pre ++ w :: rest) with ((pre ++ [w]) ++ rest) by now rewrite <- app_assoc.
    apply IH.
    + destruct pre; discriminate.
    + rewrite (join_space_snoc pre w Hpre). destruct (join_space pre); [discriminate|reflexivity].
    + intros k Hk. rewrite <- app_assoc. simpl. apply Hfit.
      rewrite !length_app in *. simpl in *. lia.
Qed.

End WithContext.
End WrapMore.

(** X5: every line [wrapText] returns starts with a word: no line is empty
    and no line begins with a space. *)
Theorem wrapText_lines_start_with_word
    (measure : string -> Q) (text : string) (maxWidth : Q) :
  Forall (fun l => Wrap.starts_with_word l = true) (Wrap.wrapText measure text maxWidth).
Proof.
  unfold Wrap.wrapText, Wrap.wrap_words. apply WrapMore.fold_starts.
  - apply StrFacts.split_space_no_space.
  - constructor.
  - now left.
Qed.

(** X6: [wrapText] returns no line exactly when every word of the text is
    empty, that is when the text is empty or made of spaces only. *)
Theorem wrapText_no_lines_iff (measure : string -> Q) (text : string) (maxWidth : Q) :
  Wrap.wrapText measure text maxWidth = [] <->
  Forall (fun w => w = EmptyString) (split_space text).
Proof.
  unfold Wrap.wrapText, Wrap.wrap_words. split; intro H.
  - now apply WrapMore.fold_empty_words in H.
  - unfold Wrap.init. now rewrite WrapMore.fold_all_empty.
Qed.

(** X7: the wrap is greedy.  When every word of the text is non-empty, each
    break was forced: the first word of a line, appended behind a space to
    the line before it, measures wider than [maxWidth]. *)
Theorem wrapText_breaks_forced (measure : string -> Q) (text : string) (maxWidth : Q) :
  Forall (fun w => w <> EmptyString) (split_space text) ->
  Wrap.breaks_forced measure maxWidth (Wrap.wrapText measure text maxWidth).
Proof.
  intro Hne. unfold Wrap.wrapText, Wrap.wrap_words.
  pose proof (StrFacts.split_space_no_space text) as Hns.
  destruct (split_space text) as [|w ws]; [exact I|].
  inversion Hne as [|? ? Hw Hws]; inversion Hns as [|? ? Hw' Hws']; subst.
  cbn [fold_left].
  assert (Hstep : Wrap.wrap_step measure maxWidth Wrap.init w = Wrap.mkWrap [] w).
  { unfold Wrap.wrap_step, Wrap.test_line. simpl. now rewrite andb_false_r. }
  rewrite Hstep. apply WrapMore.fold_forced; auto.
  - now apply StrFacts.truthy_true.
  - exact I.
Qed.

(** X7, on a text of three words wrapped into two lines. *)
Lemma wrapText_breaks_forced_example :
  Forall (fun w => w <> EmptyString) (split_space "make it short") /\
  Wrap.breaks_forced Examples.char_measure 300
    (Wrap.wrapText Examples.char_measure "make it short" 300).
Proof.
  assert (H : Forall (fun w => w <> EmptyString) (split_space "make it short"))
    by (repeat constructor; discriminate).
  split; [assumption|].
  exact (wrapText_breaks_forced Examples.char_measure "make it short" 300 H).
Defined.

(** X8: a text that fits is not broken.  When every word is non-empty and
    every run of two or more leading words, joined with spaces, measures at
    most [maxWidth], [wrapText] returns the text as its one line. *)
Theorem wrapText_fitting_text_one_line
    (measure : string -> Q) (text : string) (maxWidth : Q) :
  Forall (fun w => w <> EmptyString) (split_space text) ->
  Forall (fun k => measure (join_space (firstn k (split_space text))) <= maxWidth)
         (seq 2 (List.length (split_space text) - 1)) ->
  Wrap.wrapText measure text maxWidth = [text].
Proof.
  intros Hne Hfit. unfold Wrap.wrapText, Wrap.wrap_words.
  rewrite <- (StrFacts.join_split text) at 2.
  rewrite Forall_forall in Hfit.
  destruct (split_space text) as [|w ws] eqn:E; [now destruct (StrFacts.split_space_not_nil text)|].
  inversion Hne as [|? ? Hw Hws]; subst.
  cbn [fold_left].
  assert (Hstep : Wrap.wrap_step measure maxWidth Wrap.init w = Wrap.mkWrap [] w).
  { unfold Wrap.wrap_step, Wrap.test_line. simpl. now rewrite andb_false_r. }
  rewrite Hstep.
  assert (Ht : Str.truthy w = true) by now apply StrFacts.truthy_true.
  change (Wrap.mkWrap [] w) with (Wrap.mkWrap [] (join_space [w])).
  rewrite (WrapMore.fold_fits measure maxWidth [w] ws); [| discriminate | exact Ht |].
  - unfold Wrap.finish. cbn [Wrap.current Wrap.lines].
    assert (Hj : Str.truthy (join_space ([w] ++ ws)) = true).
    { destruct ws; simpl; [assumption|]. destruct w; [discriminate|reflexivity]. }
    rewrite Hj. reflexivity.
  - intros k Hk. apply Hfit. apply in_seq. simpl in *. lia.
Qed.

(** X8, on a text of three words and a wide limit. *)
Lemma wrapText_fitting_text_example :
  (Forall (fun w => w <> EmptyString) (split_space "make it short") /\
   Forall (fun k => Examples.char_measure (join_space (firstn k (split_space "make it short")))
                    <= 1000)
          (seq 2 (List.length (split_space "make it short") - 1))) /\
  Wrap.wrapText Examples.char_measure "make it short" 1000 = ["make it short"%string].
Proof.
  assert (H1 : Forall (fun w => w <> EmptyString) (split_space "make it short"))
    by (repeat constructor; discriminate).
  assert (H2 : Forall (fun k => Examples.char_measure
                                  (join_space (firstn k (split_space "make it short")))
                                <= 1000)
                 (seq 2 (List.length (split_space "make it short") - 1)))
    by (repeat constructor; vm_compute; discriminate).
  split; [split; assumption|].
  exact (wrapText_fitting_text_one_line Examples.char_measure "make it short" 1000 H1 H2).
Defined.

(** ** Renderer *)

Module RendererMore.
Import Timeline Renderer.

Section WithMeasure.
Variable measureText : string -> string -> Q.

(** The frame as three runs of operations: background, header and progress
    bar; the beat; the footer. *)
Lemma drawFrame_parts plan total c elapsed :
  has_context c = true ->
  exists r pre post,
    resolve_beat plan elapsed = Ok r /\
    drawFrame measureText plan total (Some c) elapsed
    = Ok (Some (pre ++ match beat r with
                       | Some b => draw_beat measureText c b (progress r)
                       | None => []
                       end ++ post)) /\
    bar_width (pre ++ match beat r with
                      | Some b => draw_beat measureText c b (progress r)
                      | None => []
                      end ++ post)
    = Some ((inject_Z (c_width c) - 128)
            * Qmax 0 (Qmin 1 (if Qltb 0 total then elapsed / total else 0))) /\
    alphas pre = [] /\ alphas post = [] /\
    texts pre = [or_default (plan_title plan) "Reel"] /\
    texts post = [or_default (plan_cta plan) EmptyString; plan_tags plan].
Proof.
  intro Hc. destruct (RendererFacts.resolve_beat_ok plan elapsed) as [r Hr].
  exists r. unfold drawFrame. rewrite Hc, Hr. cbn [negb bind].
  eexists. eexists. split; [reflexivity|]. split; [reflexivity|].
  repeat split; reflexivity.
Qed.

Lemma alphas_app a b : alphas (a ++ b) = alphas a ++ alphas b.
Proof. apply flat_map_app. Qed.

Lemma texts_app a b : texts (a ++ b) = texts a ++ texts b.
Proof. apply flat_map_app. Qed.

Lemma texts_draw_lines ls : forall i baseY p,
  texts (draw_lines ls i baseY p) = ls.
Proof.
  induction ls as [|l ls IH]; intros i baseY p; [reflexivity|].
  cbn [draw_lines]. rewrite texts_app, IH. reflexivity.
Qed.

Lemma alphas_draw_lines ls : forall i baseY p,
  alphas (draw_lines ls i baseY p)
  = flat_map (fun _ => [(1#5) + (4#5) * easeInOutCubic (Qmin 1 (p * (6#5))); 1]) ls.
Proof.
  induction ls as [|l ls IH]; intros i baseY p; [reflexivity|].
  cbn [draw_lines]. rewrite alphas_app, IH. reflexivity.
Qed.

Lemma alpha_range p :
  0 <= p ->
  (1#5) <= (1#5) + (4#5) * easeInOutCubic (Qmin 1 (p * (6#5))) <= 1.
Proof.
  intro Hp.
  assert (Hx : 0 <= Qmin 1 (p * (6#5)) <= 1).
  { split; [|apply Q.le_min_l]. apply Q.min_glb; lra. }
  destruct (ease_range _ (proj1 Hx) (proj2 Hx)) as [H0 H1]. lra.
Qed.

Lemma alphas_pairs (a : Q) (ls : list string) :
  (1#5) <= a <= 1 ->
  Forall (fun x => (1#5) <= x <= 1) (flat_map (fun _ : string => [a; 1]) ls) /\
  last (flat_map (fun _ : string => [a; 1]) ls) 1 = 1.
Proof.
  intro Ha. induction ls as [|l ls [IH1 IH2]]; simpl.
  - split; [constructor|reflexivity].
  - split.
    + constructor; [assumption|]. constructor; [split; discriminate|assumption].
    + destruct (flat_map (fun _ : string => [a; 1]) ls); [reflexivity|assumption].
Qed.

End WithMeasure.
End RendererMore.

(** X9: the filled part of the progress bar never leaves its track.  On a
    canvas at least 128 wide its width lies between 0 and the track width
    [width - 128]; it is 0 when [totalDuration <= 0] or [elapsed <= 0], and
    the whole track once [elapsed >= totalDuration > 0]. *)
Theorem drawFrame_progress_bar
    (measureText : string -> string -> Q) (plan : option ReelPlan)
    (total : Q) (c : Canvas) (elapsed : Q) :
  has_context c = true ->
  (128 <= c_width c)%Z ->
  exists ops w,
    Renderer.drawFrame measureText plan total (Some c) elapsed = Ok (Some ops) /\
    bar_width ops = Some w /\
    0 <= w <= inject_Z (c_width c) - 128 /\
    (total <= 0 \/ elapsed <= 0 -> w == 0) /\
    (0 < total -> total <= elapsed -> w == inject_Z (c_width c) - 128).
Proof.
  intros Hc Hw.
  destruct (RendererMore.drawFrame_parts measureText plan total c elapsed Hc)
    as (r & pre & post & _ & Hd & Hb & _).
  eexists. eexists. split; [exact Hd|]. split; [exact Hb|].
  assert (HW : 0 <= inject_Z (c_width c) - 128).
  { assert (H : inject_Z 128 <= inject_Z (c_width c)) by now rewrite <- Zle_Qle.
    change (inject_Z 128) with 128 in H. lra. }
  set (W := inject_Z (c_width c) - 128) in *.
  set (p := if Qltb 0 total then elapsed / total else 0).
  assert (Hf : 0 <= Qmax 0 (Qmin 1 p) <= 1).
  { split; [apply Q.le_max_l|]. apply Q.max_lub; [discriminate|apply Q.le_min_l]. }
  split; [|split].
  - split; [apply Qmult_le_0_compat; tauto|].
    assert (H1 : 0 <= W * (1 - Qmax 0 (Qmin 1 p)))
      by (apply Qmult_le_0_compat; [assumption|lra]).
    lra.
  - intro H.
    assert (Hp : p <= 0).
    { unfold p. destruct (Qltb 0 total) eqn:Et; [|discriminate].
      apply Qltb_lt in Et. destruct H as [H|H]; [lra|].
      apply Qle_shift_div_r; lra. }
    rewrite (Q.min_r 1 p) by lra. rewrite Q.max_l by assumption. ring.
  - intros Ht He.
    assert (Hp : 1 <= p).
    { unfold p. apply Qltb_lt in Ht. rewrite Ht. apply Qle_shift_div_l; [now apply Qltb_lt|lra]. }
    rewrite (Q.min_l 1 p) by assumption. rewrite Q.max_r by discriminate. ring.
Qed.

(** X9, on the full-size canvas, half way through a reel of 3000 ms. *)
Lemma drawFrame_progress_bar_example :
  (has_context (mkCanvas 1080 1920 (Px 360) (Px 640) true) = true /\
   (128 <= c_width (mkCanvas 1080 1920 (Px 360) (Px 640) true))%Z) /\
  exists ops w,
    Renderer.drawFrame Examples.measureText_demo (Some Examples.planAB) 3000
      (Some (mkCanvas 1080 1920 (Px 360) (Px 640) true)) 1500 = Ok (Some ops) /\
    bar_width ops = Some w /\
    0 <= w <= inject_Z (c_width (mkCanvas 1080 1920 (Px 360) (Px 640) true)) - 128 /\
    (3000 <= 0 \/ 1500 <= 0 -> w == 0) /\
    (0 < 3000 -> 3000 <= 1500 ->
     w == inject_Z (c_width (mkCanvas 1080 1920 (Px 360) (Px 640) true)) - 128).
Proof.
  assert (H1 : has_context (mkCanvas 1080 1920 (Px 360) (Px 640) true) = true) by reflexivity.
  assert (H2 : (128 <= c_width (mkCanvas 1080 1920 (Px 360) (Px 640) true))%Z)
    by (simpl; lia).
  split; [split; assumption|].
  exact (drawFrame_progress_bar Examples.measureText_demo (Some Examples.planAB) 3000
           _ 1500 H1 H2).
Defined.

(** X10: for a plan whose beats all have a positive duration, every opacity
    set while a frame is painted lies between 0.2 and 1, and the opacity is
    back at 1 when the frame is done, so the footer and the next frame's
    header are painted opaque. *)
Theorem drawFrame_alpha_range
    (measureText : string -> string -> Q) (plan : option ReelPlan)
    (total : Q) (c : Canvas) (elapsed : Q) :
  Forall (fun b => 0 < durationMs b) (beats_of plan) ->
  has_context c = true ->
  exists ops,
    Renderer.drawFrame measureText plan total (Some c) elapsed = Ok (Some ops) /\
    Forall (fun a => (1#5) <= a <= 1) (alphas ops) /\
    last (alphas ops) 1 = 1.
Proof.
  intros Hpos Hc.
  destruct (RendererMore.drawFrame_parts measureText plan total c elapsed Hc)
    as (r & pre & post & Hr & Hd & _ & Hpre & Hpost & _).
  eexists. split; [exact Hd|].
  rewrite !RendererMore.alphas_app, Hpre, Hpost, app_nil_r. cbn [app].
  destruct (beat r) as [b|]; [|split; [constructor|reflexivity]].
  unfold draw_beat. rewrite RendererMore.alphas_app, RendererMore.alphas_draw_lines.
  cbn [alphas flat_map app].
  apply RendererMore.alphas_pairs. apply RendererMore.alpha_range.
  apply (resolve_beat_progress plan elapsed r Hpos Hr).
Qed.

(** X10, for the two-beat plan on the default canvas. *)
Lemma drawFrame_alpha_range_example :
  (Forall (fun b => 0 < durationMs b) (beats_of (Some Examples.planAB)) /\
   has_context Examples.default_canvas = true) /\
  exists ops,
    Renderer.drawFrame Examples.measureText_demo (Some Examples.planAB) 3000
      (Some Examples.default_canvas) 400 = Ok (Some ops) /\
    Forall (fun a => (1#5) <= a <= 1) (alphas ops) /\
    last (alphas ops) 1 = 1.
Proof.
  assert (Hpos : Forall (fun b => 0 < durationMs b) (beats_of (Some Examples.planAB)))
    by (repeat constructor).
  split; [split; [exact Hpos|reflexivity]|].
  exact (drawFrame_alpha_range Examples.measureText_demo (Some Examples.planAB) 3000
           Examples.default_canvas 400 Hpos eq_refl).
Defined.

(** X11: the texts a frame paints are, in order: the title (or [Reel]), the
    lines [wrapText] makes of the resolved beat's text at the width
    [canvas.width - 128] in the beat font, the CTA and the hashtag strip --
    and, when no beat is resolved, the title, the CTA and the strip alone. *)
Theorem drawFrame_texts
    (measureText : string -> string -> Q) (plan : option ReelPlan)
    (total : Q) (c : Canvas) (elapsed : Q) :
  has_context c = true ->
  exists ops r,
    Renderer.drawFrame measureText plan total (Some c) elapsed = Ok (Some ops) /\
    resolve_beat plan elapsed = Ok r /\
    texts ops
    = or_default (plan_title plan) "Reel"
      :: match beat r with
         | Some b => Wrap.wrapText (measureText font_beat) (text b)
                                   (inject_Z (c_width c) - 128)
         | None => []
         end
      ++ [or_default (plan_cta plan) EmptyString; plan_tags plan].
Proof.
  intro Hc.
  destruct (RendererMore.drawFrame_parts measureText plan total c elapsed Hc)
    as (r & pre & post & Hr & Hd & _ & _ & _ & Hpre & Hpost).
  eexists. exists r. split; [exact Hd|]. split; [assumption|].
  rewrite !RendererMore.texts_app, Hpre, Hpost. cbn [app]. f_equal. f_equal.
  destruct (beat r) as [b|]; [|reflexivity].
  unfold draw_beat. rewrite RendererMore.texts_app, RendererMore.texts_draw_lines.
  reflexivity.
Qed.

(** X11, on the default canvas. *)
Lemma drawFrame_texts_example :
  has_context Examples.default_canvas = true /\
  exists ops r,
    Renderer.drawFrame Examples.measureText_demo (Some Examples.planAB) 3000
      (Some Examples.default_canvas) 1500 = Ok (Some ops) /\
    resolve_beat (Some Examples.planAB) 1500 = Ok r /\
    texts ops
    = or_default (plan_title (Some Examples.planAB)) "Reel"
      :: match beat r with
         | Some b => Wrap.wrapText (Examples.measureText_demo font_beat) (text b)
                                   (inject_Z (c_width Examples.default_canvas) - 128)
         | None => []
         end
      ++ [or_default (plan_cta (Some Examples.planAB)) EmptyString;
          plan_tags (Some Examples.planAB)].
Proof.
  split; [reflexivity|].
  exact (drawFrame_texts Examples.measureText_demo (Some Examples.planAB) 3000
           Examples.default_canvas 1500 eq_refl).
Defined.

(** ** Playback and capture *)

Module PlayerMore.
Import Timeline Renderer Player PlayerFacts.

Section WithMeasure.
Variable measureText : string -> string -> Q.

Lemma drawFrame_same r elapsed s :
  exists s',
    drawFrame measureText r elapsed s = Ok s' /\
    canvas s' = canvas s /\ isPlayingState s' = isPlayingState s /\
    startTimeRef s' = startTimeRef s /\ rafRef s' = rafRef s /\
    rafQueue s' = rafQueue s /\ nextRafId s' = nextRafId s /\ capture s' = capture s.
Proof.
  unfold drawFrame.
  destruct (canvas s) as [c|] eqn:Ec.
  - destruct (has_context c) eqn:Hc.
    + destruct (RendererFacts.drawFrame_paints measureText (plan (props r))
                  (totalDuration r) c elapsed Hc) as (ops & Hd & _).
      rewrite Hd. eexists. split; [reflexivity|]. simpl. repeat split; auto.
    + rewrite (RendererFacts.drawFrame_skips measureText _ _ (Some c) elapsed Hc).
      eexists. split; [reflexivity|]. repeat split; auto.
  - rewrite (RendererFacts.drawFrame_skips measureText _ _ None elapsed I).
    eexists. split; [reflexivity|]. repeat split; auto.
Qed.

(** *** Ticks that do nothing *)

Lemma idle_ticks_run now (q : list (nat * Callback)) : forall s,
  Forall (fun e => idle_tick (snd e)) q ->
  fold_left (fun acc e => s1 <- acc ;; run_callback measureText (snd e) now s1) q (Ok s)
  = Ok s.
Proof.
  induction q as [|e q IH]; intros s Hq; simpl; [reflexivity|].
  inversion Hq as [|? ? He Hq']; subst.
  destruct (snd e) as [r|r]; simpl in He; [|contradiction].
  simpl. unfold tick. rewrite He. simpl. now apply IH.
Qed.

Lemma preview_step e s :
  preview_event e = true ->
  Forall (fun x => idle_tick (snd x)) (rafQueue s) ->
  exists s',
    step measureText e s = Ok s' /\
    painted s' = painted s /\ canvas s' = canvas s /\ capture s' = capture s /\
    Forall (fun x => idle_tick (snd x)) (rafQueue s').
Proof.
  destruct e; simpl; intros He Hq; try discriminate.
  - eexists. split; [reflexivity|]. unfold play.
    destruct (plan (props r)); [|auto].
    destruct (isPlaying r) eqn:Er; [auto|].
    simpl. repeat split; auto.
    apply Forall_app. split; [assumption|]. constructor; [exact Er|constructor].
  - unfold animation_frame. rewrite idle_ticks_run by assumption.
    eexists. split; [reflexivity|]. simpl. auto.
Qed.

Lemma preview_run es : forall s,
  Forall (fun e => preview_event e = true) es ->
  Forall (fun x => idle_tick (snd x)) (rafQueue s) ->
  exists s',
    run measureText es s = Ok s' /\
    painted s' = painted s /\ canvas s' = canvas s /\ capture s' = capture s /\
    Forall (fun x => idle_tick (snd x)) (rafQueue s').
Proof.
  induction es as [|e es IH]; intros s Hes Hq; simpl.
  - exists s. auto.
  - inversion Hes as [|? ? He Hes']; subst.
    destruct (preview_step e s He Hq) as (s1 & -> & Hp & Hc & Hcap & Hq1). simpl.
    destruct (IH s1 Hes' Hq1) as (s2 & Hrun & Hp2 & Hc2 & Hcap2 & Hq2).
    exists s2. rewrite Hrun, Hp2, Hc2, Hcap2. auto.
Qed.

(** *** Chunks of a capture *)

Lemma during_step r cF a b c cs now0 e s :
  isPlaying r = true ->
  has_context cF = true ->
  during r now0 e ->
  recording r cF (mkCapture r a b c cs Recording None) now0 s ->
  exists s',
    step measureText e s = Ok s' /\
    recording r cF (mkCapture r a b c (cs ++ kept_chunks (data_of [e])) Recording None)
              now0 s'.
Proof.
  intros Hr Hctx He Hs. destruct e; simpl in He; try contradiction.
  - cbn [step data_of flat_map kept_chunks filter app]. rewrite app_nil_r.
    now apply frame_recording.
  - destruct Hs as (Hc & Hcap & Hst & Hp & id & Hq).
    cbn [step]. eexists. split; [reflexivity|].
    unfold ondataavailable. rewrite Hcap. cbn [recorder].
    cbn [data_of flat_map kept_chunks filter app].
    destruct (Nat.ltb 0 (String.length data)).
    + repeat split; simpl; auto. exists id. assumption.
    + rewrite app_nil_r. repeat split; auto. exists id. assumption.
Qed.

Lemma data_of_app es1 es2 : data_of (es1 ++ es2) = data_of es1 ++ data_of es2.
Proof. apply flat_map_app. Qed.

Lemma kept_chunks_app a b : kept_chunks (a ++ b) = kept_chunks a ++ kept_chunks b.
Proof. apply filter_app. Qed.

Lemma during_run r cF a b c now0 es : forall cs s,
  isPlaying r = true ->
  has_context cF = true ->
  Forall (during r now0) es ->
  recording r cF (mkCapture r a b c cs Recording None) now0 s ->
  exists s',
    run measureText es s = Ok s' /\
    recording r cF (mkCapture r a b c (cs ++ kept_chunks (data_of es)) Recording None)
              now0 s'.
Proof.
  induction es as [|e es IH]; intros cs s Hr Hctx Hes Hs.
  - simpl. exists s. rewrite app_nil_r. auto.
  - inversion Hes as [|? ? He Hes']; subst. cbn [run].
    destruct (during_step r cF a b c cs now0 e s Hr Hctx He Hs) as (s1 & -> & Hs1).
    cbn [bind].
    destruct (IH _ s1 Hr Hctx Hes' Hs1) as (s2 & Hrun & Hs2).
    exists s2. split; [assumption|].
    change (e :: es) with ([e] ++ es).
    now rewrite data_of_app, kept_chunks_app, app_assoc.
Qed.

Lemma data_while_stopping r a b c es : forall cs s,
  Forall (fun e => is_data e = true) es ->
  capture s = Some (mkCapture r a b c cs Stopping None) ->
  exists s',
    run measureText es s = Ok s' /\
    canvas s' = canvas s /\
    capture s' = Some (mkCapture r a b c (cs ++ kept_chunks (data_of es)) Stopping None).
Proof.
  induction es as [|e es IH]; intros cs s Hes Hcap.
  - simpl. exists s. rewrite app_nil_r. auto.
  - inversion Hes as [|? ? He Hes']; subst.
    destruct e; try discriminate. cbn [run step bind].
    assert (H1 : canvas (ondataavailable data s) = canvas s /\
                 capture (ondataavailable data s)
                 = Some (mkCapture r a b c (cs ++ kept_chunks (data_of [DataAvailable data]))
                                   Stopping None)).
    { unfold ondataavailable. rewrite Hcap. cbn [recorder data_of flat_map kept_chunks filter app].
      destruct (Nat.ltb 0 (String.length data)); [simpl; auto|].
      rewrite app_nil_r. auto. }
    destruct H1 as [Hc1 Hcap1].
    destruct (IH _ _ Hes' Hcap1) as (s2 & Hrun & Hc2 & Hcap2).
    exists s2. split; [assumption|]. split; [congruence|].
    rewrite Hcap2. change (DataAvailable data :: es) with ([DataAvailable data] ++ es).
    now rewrite data_of_app, kept_chunks_app, app_assoc.
Qed.

End WithMeasure.
End PlayerMore.

(** X12: the layout effect keeps the canvas bitmap inside 1080 x 1920: for
    positive [width] and [height] the bitmap is at most 1080 wide and 1920
    high, while the style takes the props' size. *)
Theorem layout_effect_fits_full_size
    (measureText : string -> string -> Q) (r : Render) (s : State) (c : Canvas) :
  0 < width (props r) ->
  0 < height (props r) ->
  canvas s = Some c ->
  exists s' c',
    layout_effect measureText r s = Ok s' /\
    canvas s' = Some c' /\
    (c_width c' <= 1080)%Z /\ (c_height c' <= 1920)%Z /\
    c_style_width c' = Px (width (props r)) /\
    c_style_height c' = Px (height (props r)).
Proof.
  intros Hw Hh Hc. unfold layout_effect. rewrite Hc.
  match goal with
  | |- context [Player.drawFrame measureText r 0 ?st] =>
      destruct (PlayerMore.drawFrame_same measureText r 0 st)
        as (s' & -> & Hcs & _)
  end.
  eexists. eexists. split; [reflexivity|]. split; [exact Hcs|].
  cbn [c_width c_height c_style_width c_style_height resize].
  set (w := width (props r)) in *. set (h := height (props r)) in *.
  change (inject_Z FULL_W) with 1080. change (inject_Z FULL_H) with 1920.
  assert (Ha : w * (1080 / w) == 1080) by (field; lra).
  assert (Hb : h * (1920 / h) == 1920) by (field; lra).
  assert (Hmw : w * Qmin (1080 / w) (1920 / h) <= 1080).
  { rewrite <- Ha at 2. apply Qmult_le_l; [assumption|apply Q.le_min_l]. }
  assert (Hmh : h * Qmin (1080 / w) (1920 / h) <= 1920).
  { rewrite <- Hb at 2. apply Qmult_le_l; [assumption|apply Q.le_min_r]. }
  split; [|split; [|split; reflexivity]].
  - change 1080%Z with (Qfloor 1080). now apply Qfloor_resp_le.
  - change 1920%Z with (Qfloor 1920). now apply Qfloor_resp_le.
Qed.

(** X12, for the page's 360 x 640 preview. *)
Lemma layout_effect_preview :
  (0 < width (props Examples.idle_render) /\
   0 < height (props Examples.idle_render) /\
   canvas Examples.initial = Some Examples.default_canvas) /\
  exists s' c',
    layout_effect Examples.measureText_demo Examples.idle_render Examples.initial = Ok s' /\
    canvas s' = Some c' /\
    (c_width c' <= 1080)%Z /\ (c_height c' <= 1920)%Z /\
    c_style_width c' = Px (width (props Examples.idle_render)) /\
    c_style_height c' = Px (height (props Examples.idle_render)).
Proof.
  assert (H1 : 0 < width (props Examples.idle_render)) by reflexivity.
  assert (H2 : 0 < height (props Examples.idle_render)) by reflexivity.
  split; [repeat split; assumption|].
  exact (layout_effect_fits_full_size Examples.measureText_demo Examples.idle_render
           Examples.initial Examples.default_canvas H1 H2 eq_refl).
Defined.

(** X13: pressing Play never paints.  A tick scheduled by [play] is a closure
    of a render whose [isPlaying] is [false] (only such a render passes the
    guard of line 140), so it returns at line 127.  Starting with only such
    ticks queued, any sequence of [play] calls (through any render) and
    animation frames returns normally and leaves the painted frames, the
    canvas and the capture as they were. *)
Theorem play_and_frames_paint_nothing
    (measureText : string -> string -> Q) (s : State) (es : list Event) :
  Forall (fun x => idle_tick (snd x)) (rafQueue s) ->
  Forall (fun e => preview_event e = true) es ->
  exists s',
    run measureText es s = Ok s' /\
    painted s' = painted s /\ canvas s' = canvas s /\ capture s' = capture s.
Proof.
  intros Hq Hes.
  destruct (PlayerMore.preview_run measureText es s Hes Hq) as (s' & H1 & H2 & H3 & H4 & _).
  exists s'. auto.
Qed.

(** X13, on the mounted preview: Play, two frames, Play again through the
    render that follows. *)
Lemma play_and_frames_on_preview :
  (Forall (fun x => idle_tick (snd x)) (rafQueue Examples.mounted) /\
   Forall (fun e => preview_event e = true)
          [CallPlay Examples.idle_render 10; Frame 26; Frame 42;
           CallPlay Examples.playing_render 50; Frame 58]) /\
  exists s',
    run Examples.measureText_demo
        [CallPlay Examples.idle_render 10; Frame 26; Frame 42;
         CallPlay Examples.playing_render 50; Frame 58] Examples.mounted = Ok s' /\
    painted s' = painted Examples.mounted /\
    canvas s' = canvas Examples.mounted /\
    capture s' = capture Examples.mounted.
Proof.
  assert (H1 : Forall (fun x => idle_tick (snd x)) (rafQueue Examples.mounted))
    by (vm_compute; constructor).
  assert (H2 : Forall (fun e => preview_event e = true)
                 [CallPlay Examples.idle_render 10; Frame 26; Frame 42;
                  CallPlay Examples.playing_render 50; Frame 58])
    by (repeat constructor).
  split; [split; assumption|].
  exact (play_and_frames_paint_nothing Examples.measureText_demo Examples.mounted _ H1 H2).
Defined.

(** X14: the blob of a completed capture holds exactly the non-empty chunks
    the recorder delivered, in the order of delivery -- those that arrived
    while the loop was running and those that arrived between
    [recorder.stop()] and the stop event -- under the type [video/webm];
    empty chunks are left out. *)
Theorem capture_blob_is_kept_chunks
    (measureText : string -> string -> Q) (r : Render) (s : State) (c : Canvas)
    (now0 now1 : Q) (es1 es2 : list Event) :
  plan (props r) <> None ->
  isPlaying r = true ->
  canvas s = Some c ->
  has_context c = true ->
  rafQueue s = [] ->
  Forall (during r now0) es1 ->
  totalDuration r <= now1 - now0 ->
  Forall (fun e => is_data e = true) es2 ->
  exists s' cap,
    run measureText (CallRecord r now0 :: es1 ++ Frame now1 :: es2 ++ [RecorderStopped]) s
      = Ok s' /\
    capture s' = Some cap /\
    outcome cap = Some (mkBlob (kept_chunks (data_of (es1 ++ es2))) "video/webm").
Proof.
  intros Hp Hr Hc Hctx Hq Hes1 Hle Hes2.
  destruct (plan (props r)) as [pl|] eqn:Epl; [clear Hp|congruence].
  cbn [run step].
  rewrite (PlayerFacts.recordFullPlayback_starts r now0 s c pl Epl Hc), Hq.
  cbn [bind app].
  set (full := resize FULL_W FULL_H (Px (inject_Z FULL_W)) (Px (inject_Z FULL_H)) c).
  rewrite PlayerFacts.run_app.
  match goal with
  | |- context [run measureText es1 ?st] =>
      destruct (PlayerMore.during_run measureText r full (c_width c) (c_height c)
                  (c_style_width c, c_style_height c) now0 es1 [] st Hr Hctx Hes1)
        as (s1 & -> & Hc1 & Hcap1 & Hst1 & Hp1 & id & Hq1)
  end.
  { repeat split; simpl; auto. eexists. reflexivity. }
  cbn [bind run step app] in *. unfold animation_frame. rewrite Hq1.
  cbn [fold_left bind snd run_callback].
  destruct (PlayerFacts.loop_finishes measureText r now1 (set_rafQueue [] s1) full Hr)
    as (last & _ & ->); auto.
  { simpl. now rewrite Hst1. }
  cbn [bind]. unfold recorder_stop.
  cbn [capture setIsPlaying push_painted set_rafQueue]. rewrite Hcap1.
  cbn [recorder cap_render prevW prevH prevStyle chunks outcome].
  rewrite PlayerFacts.run_app.
  match goal with
  | |- context [run measureText es2 ?st] =>
      destruct (PlayerMore.data_while_stopping measureText r (c_width c) (c_height c)
                  (c_style_width c, c_style_height c) es2
                  (kept_chunks (data_of es1)) st Hes2 eq_refl)
        as (s2 & -> & Hc2 & Hcap2)
  end.
  cbn [canvas set_capture setIsPlaying push_painted set_rafQueue] in Hc2.
  rewrite Hc1 in Hc2.
  cbn [bind run step].
  destruct (PlayerFacts.onstop_restores measureText s2 _ full Hcap2 eq_refl Hc2 Hctx)
    as (first & _ & ->).
  cbn [bind]. eexists. eexists. split; [reflexivity|].
  cbn [capture set_capture outcome chunks]. split; [reflexivity|].
  now rewrite PlayerMore.data_of_app, PlayerMore.kept_chunks_app.
Qed.

(** X14, on the preview after Play: a chunk, an empty chunk, a frame and a
    last chunk after the recorder was stopped. *)
Lemma capture_blob_on_preview :
  (plan (props Examples.playing_render) <> None /\
   isPlaying Examples.playing_render = true /\
   canvas Examples.after_play = Some (mkCanvas 1080 1920 (Px 360) (Px 640) true) /\
   rafQueue Examples.after_play = [] /\
   Forall (during Examples.playing_render 100)
          [Frame 116; DataAvailable "one"%string; DataAvailable EmptyString; Frame 1600] /\
   totalDuration Examples.playing_render <= 3200 - 100 /\
   Forall (fun e => is_data e = true) [DataAvailable "two"%string]) /\
  exists s' cap,
    run Examples.measureText_demo
        (CallRecord Examples.playing_render 100 ::
         [Frame 116; DataAvailable "one"%string; DataAvailable EmptyString; Frame 1600]
         ++ Frame 3200 :: [DataAvailable "two"%string] ++ [RecorderStopped])
        Examples.after_play = Ok s' /\
    capture s' = Some cap /\
    outcome cap = Some (mkBlob ["one"; "two"]%string "video/webm").
Proof.
  assert (H1 : plan (props Examples.playing_render) <> None) by discriminate.
  assert (H2 : isPlaying Examples.playing_render = true) by (vm_compute; reflexivity).
  assert (H3 : canvas Examples.after_play = Some (mkCanvas 1080 1920 (Px 360) (Px 640) true))
    by (vm_compute; reflexivity).
  assert (H4 : rafQueue Examples.after_play = []) by (vm_compute; reflexivity).
  assert (H5 : Forall (during Examples.playing_render 100)
                 [Frame 116; DataAvailable "one"%string; DataAvailable EmptyString;
                  Frame 1600])
    by (repeat constructor).
  assert (H6 : totalDuration Examples.playing_render <= 3200 - 100)
    by (vm_compute; discriminate).
  assert (H7 : Forall (fun e => is_data e = true) [DataAvailable "two"%string])
    by (repeat constructor).
  split; [repeat split; assumption|].
  exact (capture_blob_is_kept_chunks Examples.measureText_demo Examples.playing_render
           Examples.after_play _ 100 3200 _ _ H1 H2 H3 eq_refl H4 H5 H6 H7).
Defined.

Lemma filter_fresh (q : list (nat * Callback)) (n : nat) (cb : Callback) :
  Forall (fun e => (fst e < n)%nat) q ->
  filter (fun e => negb (Nat.eqb (fst e) n)) (q ++ [(n, cb)]) = q.
Proof.
  intro H. rewrite filter_app. simpl. rewrite Nat.eqb_refl. simpl. rewrite app_nil_r.
  induction H as [|e q He Hq IH]; simpl; [reflexivity|].
  assert (Hn : Nat.eqb (fst e) n = false) by (apply Nat.eqb_neq; lia).
  rewrite Hn. simpl. now rewrite IH.
Qed.

(** X15: [stop] undoes the scheduling of the [play] before it.  From an
    idle render with a plan, [play] followed by [stop] (through any render)
    leaves the queue of callbacks as it was before [play], the [isPlaying]
    cell [false] and [startTimeRef] at 0, the canvas untouched; and on a
    canvas with a context it paints the frame for [elapsed = 0] on top. *)
Theorem play_then_stop_restores_queue
    (measureText : string -> string -> Q) (r r' : Render) (s : State) (now : Q) :
  plan (props r) <> None ->
  isPlaying r = false ->
  (0 < nextRafId s)%nat ->
  Forall (fun e => (fst e < nextRafId s)%nat) (rafQueue s) ->
  exists s',
    run measureText [CallPlay r now; CallStop r'] s = Ok s' /\
    rafQueue s' = rafQueue s /\
    isPlayingState s' = false /\
    startTimeRef s' = 0 /\
    canvas s' = canvas s /\
    (forall c, canvas s = Some c -> has_context c = true ->
       exists ops,
         Renderer.drawFrame measureText (plan (props r')) (totalDuration r') (Some c) 0
           = Ok (Some ops) /\
         painted s' = ops :: painted s).
Proof.
  intros Hp Hr Hn Hq.
  destruct (plan (props r)) as [pl|] eqn:Epl; [clear Hp|congruence].
  assert (Hplay : play r now s
                  = mkState (canvas s) true now (Some (nextRafId s))
                            (rafQueue s ++ [(nextRafId s, Tick r)]) (S (nextRafId s))
                            (painted s) (capture s))
    by (unfold play; rewrite Epl, Hr; reflexivity).
  cbn [run step bind]. rewrite Hplay. unfold stop.
  cbn [setIsPlaying set_startTime rafRef isPlayingState canvas startTimeRef rafQueue
       nextRafId painted capture].
  assert (Hz : Nat.eqb (nextRafId s) 0 = false) by (apply Nat.eqb_neq; lia).
  rewrite Hz. unfold cancelAnimationFrame.
  cbn [set_rafQueue rafQueue isPlayingState canvas startTimeRef rafRef nextRafId
       painted capture].
  cbn [set_rafQueue set_startTime setIsPlaying rafQueue isPlayingState canvas
       startTimeRef rafRef nextRafId painted capture].
  rewrite (filter_fresh _ _ _ Hq).
  match goal with
  | |- context [Player.drawFrame measureText r' 0 ?st] => set (st0 := st)
  end.
  destruct (PlayerMore.drawFrame_same measureText r' 0 st0)
    as (s' & Hd & H1 & H2 & H3 & _ & H5 & _).
  rewrite Hd. cbn [bind]. exists s'. split; [reflexivity|].
  rewrite H1, H2, H3, H5. repeat split.
  intros c Hc Hctx.
  destruct (PlayerFacts.drawFrame_painted measureText r' 0 st0 c Hc Hctx) as (ops & Ho & Hpd).
  exists ops. split; [assumption|].
  rewrite Hd in Hpd. injection Hpd as ->. reflexivity.
Qed.

(** X15, on the mounted preview. *)
Lemma play_then_stop_on_preview :
  (plan (props Examples.idle_render) <> None /\
   isPlaying Examples.idle_render = false /\
   (0 < nextRafId Examples.mounted)%nat /\
   Forall (fun e => (fst e < nextRafId Examples.mounted)%nat) (rafQueue Examples.mounted)) /\
  exists s',
    run Examples.measureText_demo
        [CallPlay Examples.idle_render 10; CallStop Examples.playing_render]
        Examples.mounted = Ok s' /\
    rafQueue s' = rafQueue Examples.mounted /\
    isPlayingState s' = false /\
    startTimeRef s' = 0 /\
    canvas s' = canvas Examples.mounted /\
    (forall c, canvas Examples.mounted = Some c -> has_context c = true ->
       exists ops,
         Renderer.drawFrame Examples.measureText_demo
           (plan (props Examples.playing_render)) (totalDuration Examples.playing_render)
           (Some c) 0 = Ok (Some ops) /\
         painted s' = ops :: painted Examples.mounted).
Proof.
  assert (H1 : plan (props Examples.idle_render) <> None) by discriminate.
  assert (H2 : isPlaying Examples.idle_render = false) by reflexivity.
  assert (H3 : (0 < nextRafId Examples.mounted)%nat) by (vm_compute; lia).
  assert (H4 : Forall (fun e => (fst e < nextRafId Examples.mounted)%nat)
                      (rafQueue Examples.mounted)) by (vm_compute; constructor).
  split; [repeat split; assumption|].
  exact (play_then_stop_restores_queue Examples.measureText_demo Examples.idle_render
           Examples.playing_render Examples.mounted 10 H1 H2 H3 H4).
Defined.

(** X16: neither [stop] nor the unmount cleanup cancels the loop of a
    capture.  [recordFullPlayback] does not store the id of its animation
    frame request in [rafRef] (line 189), which is the only id [stop] (line
    149) and the cleanup (line 218) cancel: after either, the loop is still
    queued. *)
Theorem capture_loop_survives_stop_and_cleanup
    (measureText : string -> string -> Q) (r : Render) (s : State) (c : Canvas) (now : Q) :
  plan (props r) <> None ->
  canvas s = Some c ->
  (forall id, rafRef s = Some id -> (id < nextRafId s)%nat) ->
  exists s1,
    recordFullPlayback r now s = Ok s1 /\
    In (nextRafId s, Loop r) (rafQueue (cleanup s1)) /\
    forall r', exists s2,
      stop measureText r' s1 = Ok s2 /\ In (nextRafId s, Loop r) (rafQueue s2).
Proof.
  intros Hp Hc Hid.
  destruct (plan (props r)) as [pl|] eqn:Epl; [clear Hp|congruence].
  rewrite (PlayerFacts.recordFullPlayback_starts r now s c pl Epl Hc).
  eexists. split; [reflexivity|].
  assert (Hkeep : forall id, (id < nextRafId s)%nat ->
            In (nextRafId s, Loop r)
               (filter (fun e => negb (Nat.eqb (fst e) id))
                       (rafQueue s ++ [(nextRafId s, Loop r)]))).
  { intros id Hlt. apply filter_In. split; [apply in_or_app; right; now left|].
    simpl. apply negb_true_iff. apply Nat.eqb_neq. lia. }
  assert (Hlast : In (nextRafId s, Loop r) (rafQueue s ++ [(nextRafId s, Loop r)]))
    by (apply in_or_app; right; now left).
  split.
  - unfold cleanup. cbn [rafRef].
    destruct (rafRef s) as [id|] eqn:Er; [|exact Hlast].
    destruct (Nat.eqb id 0); [exact Hlast|].
    unfold cancelAnimationFrame. cbn [set_rafQueue rafQueue]. apply Hkeep. now apply Hid.
  - intro r'. unfold stop.
    match goal with
    | |- context [Player.drawFrame measureText r' 0 ?st] =>
        destruct (PlayerMore.drawFrame_same measureText r' 0 st)
          as (s2 & -> & _ & _ & _ & _ & Hq2 & _)
    end.
    exists s2. split; [reflexivity|]. rewrite Hq2.
    cbn [setIsPlaying set_startTime rafRef].
    destruct (rafRef s) as [id|] eqn:Er; [|exact Hlast].
    destruct (Nat.eqb id 0); [exact Hlast|].
    unfold cancelAnimationFrame. cbn [set_rafQueue rafQueue]. apply Hkeep. now apply Hid.
Qed.

(** X16, on the preview after Play, where [rafRef] holds the id of the tick
    that [play] scheduled. *)
Lemma capture_loop_survives_on_preview :
  (plan (props Examples.playing_render) <> None /\
   canvas Examples.after_play = Some (mkCanvas 1080 1920 (Px 360) (Px 640) true) /\
   (forall id, rafRef Examples.after_play = Some id ->
               (id < nextRafId Examples.after_play)%nat)) /\
  exists s1,
    recordFullPlayback Examples.playing_render 100 Examples.after_play = Ok s1 /\
    In (nextRafId Examples.after_play, Loop Examples.playing_render)
       (rafQueue (cleanup s1)) /\
    forall r', exists s2,
      stop Examples.measureText_demo r' s1 = Ok s2 /\
      In (nextRafId Examples.after_play, Loop Examples.playing_render) (rafQueue s2).
Proof.
  assert (H1 : plan (props Examples.playing_render) <> None) by discriminate.
  assert (H2 : canvas Examples.after_play = Some (mkCanvas 1080 1920 (Px 360) (Px 640) true))
    by (vm_compute; reflexivity).
  assert (H3 : forall id, rafRef Examples.after_play = Some id ->
                          (id < nextRafId Examples.after_play)%nat).
  { intros id H. vm_compute in H. injection H as <-. vm_compute. lia. }
  split; [repeat split; assumption|].
  exact (capture_loop_survives_stop_and_cleanup Examples.measureText_demo
           Examples.playing_render Examples.after_play _ 100 H1 H2 H3).
Defined.
